(** * Doris storage core: tablet metadata and segment footer handling

    A shallow embedding of [be/src/olap/tablet_meta.h] (tablet lifecycle
    state, rowset size accounting, the delete bitmap interface) and of
    [be/src/olap/rowset/segment_v2/segment.cpp] (opening a segment, parsing
    its footer, pruning by zone map, default-value column iterators, lazy
    loading of the short key index).

    Machine integers are integers of [Z] with the wrap-around of their C++
    type written out; files are lists of bytes; [Status] is a sum whose left
    side carries the error code and message. *)

From Stdlib Require Import ZArith Lia List String Sorted.
From Stdlib.Strings Require Import Byte.
From stdpp Require Import base option list gmap strings.

Local Open Scope Z_scope.

(** ** Machine arithmetic *)

Module cxx.

(** [uint32_t] and [size_t] (64 bit) arithmetic. *)
Definition UINT32_MOD : Z := 2 ^ 32.
Definition SIZE_MOD : Z := 2 ^ 64.

Definition u32 (x : Z) : Z := x mod UINT32_MOD.
Definition usize (x : Z) : Z := x mod SIZE_MOD.

Definition add_u32 (a b : Z) : Z := u32 (a + b).
Definition add_size (a b : Z) : Z := usize (a + b).
Definition sub_size (a b : Z) : Z := usize (a - b).

End cxx.

(** ** Status *)

Module status.

Inductive ErrorCode : Set :=
| CORRUPTION
| INTERNAL_ERROR
| IO_ERROR
| NOT_FOUND
| OTHER_ERROR.

Record Failure : Set := mkFailure { code : ErrorCode; msg : string }.

(** A call that returns [Status] and fills an output parameter returns
    [inr] of the output on [Status::OK()] and [inl] of the failure
    otherwise. *)
Definition Result (A : Type) : Type := (Failure + A)%type.
Definition Status : Type := Result unit.

Definition OK : Status := inr tt.
Definition Corruption (m : string) : Failure := mkFailure CORRUPTION m.
Definition InternalError (m : string) : Failure := mkFailure INTERNAL_ERROR m.

Definition ok {A} (r : Result A) : bool :=
  match r with inr _ => true | inl _ => false end.

Definition is_corruption {A} (r : Result A) : bool :=
  match r with
  | inl (mkFailure CORRUPTION _) => true
  | _ => false
  end.

Definition is_internal_error {A} (r : Result A) : bool :=
  match r with
  | inl (mkFailure INTERNAL_ERROR _) => true
  | _ => false
  end.

(** The status of a result, forgetting the output value. *)
Definition status_of {A} (r : Result A) : Status :=
  match r with inr _ => OK | inl e => inl e end.

End status.

(** ** tablet_meta.h *)

Module tablet_meta.

(** Lifecycle states that a Tablet can be in; the order of the
    constructors is the order of the enumerators. *)
Inductive TabletState : Set :=
| TABLET_NOTREADY
| TABLET_RUNNING
| TABLET_TOMBSTONED
| TABLET_STOPPED
| TABLET_SHUTDOWN.

(** The integer value of the enumerator. *)
Definition state_value (s : TabletState) : Z :=
  match s with
  | TABLET_NOTREADY => 0
  | TABLET_RUNNING => 1
  | TABLET_TOMBSTONED => 2
  | TABLET_STOPPED => 3
  | TABLET_SHUTDOWN => 4
  end.

(** What [TabletMeta] reads off a [RowsetMeta]: the class itself is only
    forward declared in this header. *)
Record RowsetMeta : Set := mkRowsetMeta {
  num_rows : Z;
  data_disk_size : Z;
  is_local : bool
}.

Record TabletMeta : Set := mkTabletMeta {
  _tablet_id : Z;
  _tablet_state : TabletState;
  _rs_metas : list RowsetMeta;
  _stale_rs_metas : list RowsetMeta;
  _in_restore_mode : bool
}.

(** [TabletMeta()] with the default member initialisers of the class. *)
Definition TabletMeta_default : TabletMeta :=
  {| _tablet_id := 0;
     _tablet_state := TABLET_NOTREADY;
     _rs_metas := [];
     _stale_rs_metas := [];
     _in_restore_mode := false |}.

Definition tablet_state (m : TabletMeta) : TabletState := _tablet_state m.

Definition set_tablet_state (m : TabletMeta) (state : TabletState) : TabletMeta :=
  {| _tablet_id := _tablet_id m;
     _tablet_state := state;
     _rs_metas := _rs_metas m;
     _stale_rs_metas := _stale_rs_metas m;
     _in_restore_mode := _in_restore_mode m |}.

(** [for (auto& rs : _rs_metas) total_size += rs->data_disk_size();] on a
    [size_t] accumulator. *)
Definition tablet_footprint (m : TabletMeta) : Z :=
  fold_left (fun total_size rs => cxx.add_size total_size (data_disk_size rs))
            (_rs_metas m) 0.

Definition tablet_local_size (m : TabletMeta) : Z :=
  fold_left (fun total_size rs =>
               if is_local rs then cxx.add_size total_size (data_disk_size rs)
               else total_size)
            (_rs_metas m) 0.

Definition tablet_remote_size (m : TabletMeta) : Z :=
  fold_left (fun total_size rs =>
               if negb (is_local rs) then cxx.add_size total_size (data_disk_size rs)
               else total_size)
            (_rs_metas m) 0.

Definition version_count (m : TabletMeta) : Z := Z.of_nat (length (_rs_metas m)).

(** A client of the class issuing [set_tablet_state] calls one after the
    other; [state_history] lists the state before the first call and the
    state after each call. *)
Definition run_set_tablet_state (m : TabletMeta) (calls : list TabletState) : TabletMeta :=
  fold_left set_tablet_state calls m.

Fixpoint state_history (m : TabletMeta) (calls : list TabletState) : list TabletState :=
  match calls with
  | [] => [tablet_state m]
  | s :: rest => tablet_state m :: state_history (set_tablet_state m s) rest
  end.

(** The legal state transitions of a Tablet object, as the diagram above the
    enumeration draws them: the chain from NOTREADY to SHUTDOWN and the
    three arrows that enter STOPPED. *)
Inductive legal_transition : TabletState -> TabletState -> Prop :=
| NotreadyRunning : legal_transition TABLET_NOTREADY TABLET_RUNNING
| RunningTombstoned : legal_transition TABLET_RUNNING TABLET_TOMBSTONED
| TombstonedStopped : legal_transition TABLET_TOMBSTONED TABLET_STOPPED
| StoppedShutdown : legal_transition TABLET_STOPPED TABLET_SHUTDOWN
| RunningStopped : legal_transition TABLET_RUNNING TABLET_STOPPED
| NotreadyStopped : legal_transition TABLET_NOTREADY TABLET_STOPPED.

(** Every call of the sequence asks for a legal transition out of the state
    the tablet is in when the call is made. *)
Fixpoint legal_calls (from : TabletState) (calls : list TabletState) : Prop :=
  match calls with
  | [] => True
  | s :: rest => legal_transition from s /\ legal_calls s rest
  end.

(** A step of the history goes backward when the enumerator decreases. *)
Definition moves_backward (a b : TabletState) : Prop := state_value b < state_value a.

End tablet_meta.

(** ** DeleteBitmap (declared in tablet_meta.h) *)

Module delete_bitmap.

(** [BitmapKey = std::tuple<RowsetId, SegmentId, Version>]; the row ids of a
    [roaring::Roaring] are [uint32_t] values, held here as a finite set. *)
Definition RowsetId : Set := Z.
Definition SegmentId : Set := Z.
Definition Version : Set := Z.
Abbreviation BitmapKey := (Z * Z * Z)%type.
Abbreviation Roaring := (gset Z).

Record DeleteBitmap : Type := mkDeleteBitmap {
  delete_bitmap : gmap BitmapKey Roaring
}.

(** Modelled from the spec: the bodies of the [DeleteBitmap] members are in
    tablet_meta.cpp, which is not part of the sources; the header gives the
    signatures and their contracts.  [add] marks one row deleted at the
    key, creating the bitmap of the key when there is none. *)
Definition add (bmk : BitmapKey) (row_id : Z) (bm : DeleteBitmap) : DeleteBitmap :=
  mkDeleteBitmap
    (<[bmk := {[row_id]} ∪ default ∅ (delete_bitmap bm !! bmk)]> (delete_bitmap bm)).

(** Modelled from the spec: the value [remove] returns when the key has no
    bitmap; the header promises a non-zero value. *)
Definition REMOVE_NOT_FOUND : Z := -1.

(** Modelled from the spec: [remove(key, row_id)] clears one row's deletion
    mark; it returns non-zero when the key has no bitmap at all and zero
    when the mark was cleared. *)
Definition remove (bmk : BitmapKey) (row_id : Z) (bm : DeleteBitmap) : Z * DeleteBitmap :=
  match delete_bitmap bm !! bmk with
  | None => (REMOVE_NOT_FOUND, bm)
  | Some rows => (0, mkDeleteBitmap (<[bmk := rows ∖ {[row_id]}]> (delete_bitmap bm)))
  end.

(** Modelled from the spec: [contains(key, row_id)] is the point lookup. *)
Definition contains (bmk : BitmapKey) (row_id : Z) (bm : DeleteBitmap) : bool :=
  match delete_bitmap bm !! bmk with
  | None => false
  | Some rows => bool_decide (row_id ∈ rows)
  end.

End delete_bitmap.

(** ** Bytes and fixed-width coding *)

Module coding.

#[global] Instance byte_eq_dec : EqDecision byte := Byte.byte_eq_dec.

Definition byte_to_Z (b : byte) : Z := Z.of_N (Byte.to_N b).

Definition byte_of_Z (z : Z) : byte :=
  default x00 (Byte.of_N (Z.to_N (z mod 256))).

(** Modelled from the spec: [decode_fixed32_le] is declared in util/coding.h,
    which is not part of the sources; the trailer fields are 4-byte
    little-endian integers.  A buffer shorter than four bytes is not decoded
    by any caller. *)
Definition decode_fixed32_le (buf : list byte) : Z :=
  match buf with
  | b0 :: b1 :: b2 :: b3 :: _ =>
      Z.lor (byte_to_Z b0)
        (Z.lor (Z.shiftl (byte_to_Z b1) 8)
           (Z.lor (Z.shiftl (byte_to_Z b2) 16) (Z.shiftl (byte_to_Z b3) 24)))
  | _ => 0
  end.

(** Modelled from the spec: the writer's side of the same coding (the segment
    writer is not part of the sources), used to describe well-formed
    trailers. *)
Definition encode_fixed32_le (v : Z) : list byte :=
  [byte_of_Z v; byte_of_Z (Z.shiftr v 8); byte_of_Z (Z.shiftr v 16);
   byte_of_Z (Z.shiftr v 24)].

(** [memcmp(a, b, n) == 0] on buffers holding at least [n] bytes. *)
Definition memcmp_eq (a b : list byte) (n : nat) : bool :=
  bool_decide (take n a = take n b).

End coding.

(** ** segment.cpp *)

Module segment.
Import status coding.

(** *** Messages and schema objects read by segment.cpp

    The generated protobuf classes and the tablet schema are not part of the
    sources; the records list the accessors that segment.cpp calls. *)

Record PagePointerPB : Set := mkPagePointerPB { pp_offset : Z; pp_size : Z }.

Record ColumnMetaPB : Set := mkColumnMetaPB {
  pb_unique_id : Z;
  pb_payload : list byte
}.

Record SegmentFooterPB : Set := mkSegmentFooterPB {
  columns : list ColumnMetaPB;
  num_rows : Z;
  short_key_index_page : PagePointerPB
}.

(** A default-constructed [SegmentFooterPB]. *)
Definition SegmentFooterPB_default : SegmentFooterPB :=
  mkSegmentFooterPB [] 0 (mkPagePointerPB 0 0).

Record TabletColumn : Set := mkTabletColumn {
  unique_id : Z;
  has_default_value : bool;
  default_value : string;
  is_nullable : bool;
  column_length : Z
}.

Record TabletSchema : Set := mkTabletSchema {
  schema_columns : list TabletColumn;
  is_in_memory : bool
}.

Definition num_columns (s : TabletSchema) : nat := length (schema_columns s).

(** [TabletSchema::column(cid)]: indexing outside the vector is undefined. *)
Definition column (s : TabletSchema) (cid : Z) : option TabletColumn :=
  if 0 <=? cid then schema_columns s !! Z.to_nat cid else None.

Record ColumnReaderOptions : Set := mkColumnReaderOptions { kept_in_memory : bool }.

Record ShortKeyFooterPB : Set := mkShortKeyFooterPB { sk_num_items : Z }.

Record PageFooterPB : Set := mkPageFooterPB {
  short_key_page_footer : ShortKeyFooterPB
}.

Record OlapReaderStatistics : Set := mkStats {
  total_segment_number : Z;
  filtered_segment_number : Z
}.

(** [DefaultValueColumnIterator(has_default_value, default_value, is_nullable,
    type_info, schema_length)]. *)
Record DefaultValueColumnIterator (TypeInfo : Type) : Type := mkDefaultValueColumnIterator {
  dv_has_default_value : bool;
  dv_default_value : string;
  dv_is_nullable : bool;
  dv_type_info : TypeInfo;
  dv_schema_length : Z
}.
Arguments mkDefaultValueColumnIterator {TypeInfo}.
Arguments dv_has_default_value {TypeInfo}.
Arguments dv_default_value {TypeInfo}.
Arguments dv_is_nullable {TypeInfo}.
Arguments dv_type_info {TypeInfo}.
Arguments dv_schema_length {TypeInfo}.

(** *** Collaborators

    What segment.cpp calls in other translation units.  None of them is part
    of the sources, so each is a member of an interface; the results below
    hold for every implementation of it. *)

Class Externals : Type := {
  (** segment_writer.h: the magic number ([k_segment_magic_length] is 4). *)
  k_segment_magic : list byte;
  (** util/crc32c.h *)
  crc32c_Value : list byte -> Z;
  (** [SegmentFooterPB::ParseFromString]; [None] when parsing fails. *)
  ParseFromString : list byte -> option SegmentFooterPB;
  (** What [io::FileReader::read_at] answers to a request that does not lie
      inside the file. *)
  read_outside : list byte -> Z -> Z -> Result (list byte);
  (** column_reader.h *)
  ColumnReader : Type;
  ColumnReader_create :
    ColumnReaderOptions -> ColumnMetaPB -> Z -> string -> Result ColumnReader;
  has_zone_map : ColumnReader -> bool;
  CondColumn : Type;
  match_condition : ColumnReader -> CondColumn -> bool;
  FileColumnIterator : Type;
  ColumnReader_new_iterator : ColumnReader -> Result FileColumnIterator;
  has_bitmap_index : ColumnReader -> bool;
  BitmapIndexIterator : Type;
  ColumnReader_new_bitmap_index_iterator : ColumnReader -> Result BitmapIndexIterator;
  (** types.h *)
  TypeInfo : Type;
  get_type_info : TabletColumn -> TypeInfo;
  DefaultValueColumnIterator_init : DefaultValueColumnIterator TypeInfo -> Status;
  (** page_io.h: the page handle, the page body and the page footer. *)
  PageHandle : Type;
  read_and_decompress_page :
    list byte -> PagePointerPB -> Result (PageHandle * list byte * PageFooterPB);
  (** short_key_index.h: the index a decoder holds once [parse] succeeded. *)
  ShortKeyIndex : Type;
  ShortKeyIndexDecoder_parse : list byte -> ShortKeyFooterPB -> Result ShortKeyIndex
}.

(** Modelled from the spec: [k_segment_magic_length] (segment_writer.h); the
    magic constant of the trailer has 4 bytes. *)
Definition k_segment_magic_length : nat := 4.

Section Definitions.
Context `{Ext : Externals}.

(** *** State *)

(** Modelled from the spec: [DorisCallOnce<Status>] (util/once.h) is not part
    of the sources; it is the initialize-once cell: the first [call] runs the
    function and keeps its status, later calls return the kept status. *)
Record DorisCallOnce : Type := mkDorisCallOnce {
  _has_called : bool;
  _status : Status
}.

Record Segment : Type := mkSegment {
  _path : string;
  _segment_id : Z;
  _tablet_schema : TabletSchema;
  _footer : SegmentFooterPB;
  _is_open : bool;
  _column_id_to_footer_ordinal : gmap Z nat;
  _column_readers : list (option ColumnReader);
  _load_index_once : DorisCallOnce;
  _sk_index_handle : option PageHandle;
  (** [None]: null pointer; [Some None]: a decoder that has not parsed;
      [Some (Some i)]: a decoder holding the index [i]. *)
  _sk_index_decoder : option (option ShortKeyIndex)
}.

(** What the file system was asked to do, oldest request first. *)
Inductive IOEvent : Set :=
| OpenFile (path : string)
| ReadAt (path : string) (offset len : Z)
| ReadPage (path : string) (page : PagePointerPB).

(** The objects a segment shares with the rest of the process: the files of
    [_fs], the requests made to it, the memory tracker and the statistics
    that [read_options.stats] points to. *)
Record World : Type := mkWorld {
  files : gmap string (list byte);
  io_log : list IOEvent;
  mem_consumption : Z;
  stats : OlapReaderStatistics
}.

Record Env : Type := mkEnv { world : World; this : Segment }.

(** *** The monad of member functions: state, and a [Status] that stops the
    function when it is not OK ([RETURN_IF_ERROR]). *)

Definition M (A : Type) : Type := Env -> Result A * Env.

Definition ret {A} (a : A) : M A := fun e => (inr a, e).
Definition fail {A} (f : Failure) : M A := fun e => (inl f, e).
Definition bind {A B} (m : M A) (k : A -> M B) : M B :=
  fun e => match m e with
           | (inr a, e') => k a e'
           | (inl f, e') => (inl f, e')
           end.
Definition lift {A} (r : Result A) : M A := fun e => (r, e).
Definition get_this : M Segment := fun e => (inr (this e), e).
Definition get_world : M World := fun e => (inr (world e), e).
Definition modify_this (f : Segment -> Segment) : M unit :=
  fun e => (inr tt, mkEnv (world e) (f (this e))).
Definition modify_world (f : World -> World) : M unit :=
  fun e => (inr tt, mkEnv (f (world e)) (this e)).

#[local] Notation "'let*' x := m 'in' k" := (bind m (fun x => k))
  (at level 10, x name, m at level 100, k at level 200).
#[local] Notation "m ;; k" := (bind m (fun _ => k))
  (at level 100, k at level 200, right associativity).

Definition set_footer (f : SegmentFooterPB) (s : Segment) : Segment :=
  mkSegment (_path s) (_segment_id s) (_tablet_schema s) f (_is_open s)
    (_column_id_to_footer_ordinal s) (_column_readers s) (_load_index_once s)
    (_sk_index_handle s) (_sk_index_decoder s).

Definition set_is_open (b : bool) (s : Segment) : Segment :=
  mkSegment (_path s) (_segment_id s) (_tablet_schema s) (_footer s) b
    (_column_id_to_footer_ordinal s) (_column_readers s) (_load_index_once s)
    (_sk_index_handle s) (_sk_index_decoder s).

Definition set_column_id_to_footer_ordinal (m : gmap Z nat) (s : Segment) : Segment :=
  mkSegment (_path s) (_segment_id s) (_tablet_schema s) (_footer s) (_is_open s)
    m (_column_readers s) (_load_index_once s)
    (_sk_index_handle s) (_sk_index_decoder s).

Definition set_column_readers (r : list (option ColumnReader)) (s : Segment) : Segment :=
  mkSegment (_path s) (_segment_id s) (_tablet_schema s) (_footer s) (_is_open s)
    (_column_id_to_footer_ordinal s) r (_load_index_once s)
    (_sk_index_handle s) (_sk_index_decoder s).

Definition set_load_index_once (o : DorisCallOnce) (s : Segment) : Segment :=
  mkSegment (_path s) (_segment_id s) (_tablet_schema s) (_footer s) (_is_open s)
    (_column_id_to_footer_ordinal s) (_column_readers s) o
    (_sk_index_handle s) (_sk_index_decoder s).

Definition set_sk_index_handle (h : option PageHandle) (s : Segment) : Segment :=
  mkSegment (_path s) (_segment_id s) (_tablet_schema s) (_footer s) (_is_open s)
    (_column_id_to_footer_ordinal s) (_column_readers s) (_load_index_once s)
    h (_sk_index_decoder s).

Definition set_sk_index_decoder (d : option (option ShortKeyIndex)) (s : Segment) : Segment :=
  mkSegment (_path s) (_segment_id s) (_tablet_schema s) (_footer s) (_is_open s)
    (_column_id_to_footer_ordinal s) (_column_readers s) (_load_index_once s)
    (_sk_index_handle s) d.

Definition log_io (ev : IOEvent) (w : World) : World :=
  mkWorld (files w) (io_log w ++ [ev]) (mem_consumption w) (stats w).

(** [_mem_tracker->consume(bytes)] *)
Definition consume (bytes : Z) (w : World) : World :=
  mkWorld (files w) (io_log w) (mem_consumption w + bytes) (stats w).

Definition set_stats (st : OlapReaderStatistics) (w : World) : World :=
  mkWorld (files w) (io_log w) (mem_consumption w) st.

(** *** The storage resource *)

(** Modelled from the spec: [io::FileSystem] and [io::FileReader] are not part
    of the sources.  The resource is byte-range readable:
    [open(path) -> handle], [read_at(offset, length) -> bytes],
    [size() -> bytes].  A handle is the path and the bytes of the file. *)
Record FileReader : Set := mkFileReader { fr_path : string; fr_data : list byte }.

(** Modelled from the spec: [FileReader::size()]. *)
Definition FileReader_size (r : FileReader) : Z := Z.of_nat (length (fr_data r)).

(** Modelled from the spec: [FileSystem::open_file(path, &file_reader)]; a
    path that names no file is reported as not found. *)
Definition open_file (path : string) : M FileReader :=
  modify_world (log_io (OpenFile path)) ;;
  let* w := get_world in
  match files w !! path with
  | Some data => ret (mkFileReader path data)
  | None => fail (mkFailure NOT_FOUND "file not found")
  end.

(** The request lies inside the file. *)
Definition in_file (r : FileReader) (offset len : Z) : bool :=
  (0 <=? offset) && (0 <=? len) && (offset + len <=? FileReader_size r).

(** Modelled from the spec: [FileReader::read_at(offset, result, &bytes_read)].
    A request inside the file returns exactly the bytes asked for; the answer
    to any other request is left to the implementation ([read_outside]). *)
Definition read_at (r : FileReader) (offset len : Z) : M (list byte) :=
  modify_world (log_io (ReadAt (fr_path r) offset len)) ;;
  if in_file r offset len
  then ret (take (Z.to_nat len) (drop (Z.to_nat offset) (fr_data r)))
  else lift (read_outside (fr_data r) offset len).

(** *** Segment::_parse_footer *)

Definition _parse_footer : M unit :=
  (* Footer := SegmentFooterPB, FooterPBSize(4), FooterPBChecksum(4), MagicNumber(4) *)
  let* s := get_this in
  let* file_reader := open_file (_path s) in
  let file_size := FileReader_size file_reader in
  if file_size <? 12 then
    fail (Corruption "Bad segment file {}: file size {} < 12")
  else
    let* fixed_buf := read_at file_reader (cxx.sub_size file_size 12) 12 in
    (* validate magic number *)
    if negb (memcmp_eq (drop 8 fixed_buf) k_segment_magic k_segment_magic_length) then
      fail (Corruption "Bad segment file {}: magic number not match")
    else
      (* read footer PB *)
      let footer_length := decode_fixed32_le fixed_buf in
      if file_size <? cxx.add_u32 12 footer_length then
        fail (Corruption "Bad segment file {}: file size {} < {}")
      else
        modify_world (consume footer_length) ;;
        let* footer_buf := read_at file_reader
                        (cxx.sub_size (cxx.sub_size file_size 12) footer_length)
                        footer_length in
        (* validate footer PB's checksum *)
        let expect_checksum := decode_fixed32_le (drop 4 fixed_buf) in
        let actual_checksum := cxx.u32 (crc32c_Value footer_buf) in
        if negb (actual_checksum =? expect_checksum) then
          fail (Corruption
                  "Bad segment file {}: footer checksum not match, actual={} vs expect={}")
        else
          (* deserialize footer PB *)
          match ParseFromString footer_buf with
          | None =>
              fail (Corruption "Bad segment file {}: failed to parse SegmentFooterPB")
          | Some footer => modify_this (set_footer footer)
          end.

(** *** Segment::_create_column_readers *)

(** [unordered_map::emplace]: the first entry of a key stays. *)
Definition emplace (k : Z) (v : nat) (m : gmap Z nat) : gmap Z nat :=
  match m !! k with
  | Some _ => m
  | None => <[k := v]> m
  end.

Fixpoint index_footer_columns (ordinal : nat) (cols : list ColumnMetaPB)
    (m : gmap Z nat) : gmap Z nat :=
  match cols with
  | [] => m
  | column_pb :: rest =>
      index_footer_columns (S ordinal) rest (emplace (pb_unique_id column_pb) ordinal m)
  end.

(** Reading a vector element outside the vector is undefined in C++; the
    model stops such an execution with this mark, which is not a status the
    program can return. *)
Definition undefined_behaviour : Failure :=
  mkFailure OTHER_ERROR "undefined behaviour: index outside the vector".

Fixpoint create_readers_from (ordinal : nat) (cols : list TabletColumn) : M unit :=
  match cols with
  | [] => ret tt
  | column :: rest =>
      let* s := get_this in
      match _column_id_to_footer_ordinal s !! unique_id column with
      | None => create_readers_from (S ordinal) rest
      | Some footer_ordinal =>
          match columns (_footer s) !! footer_ordinal with
          | None => fail undefined_behaviour
          | Some column_pb =>
              let opts := mkColumnReaderOptions (is_in_memory (_tablet_schema s)) in
              let* reader := lift (ColumnReader_create opts column_pb
                                (num_rows (_footer s)) (_path s)) in
              modify_this (fun s' =>
                set_column_readers (<[ordinal := Some reader]> (_column_readers s')) s') ;;
              create_readers_from (S ordinal) rest
          end
      end
  end.

Definition _create_column_readers : M unit :=
  modify_this (fun s =>
    set_column_id_to_footer_ordinal
      (index_footer_columns 0 (columns (_footer s)) (_column_id_to_footer_ordinal s)) s) ;;
  modify_this (fun s =>
    set_column_readers
      (resize (length (schema_columns (_tablet_schema s))) None (_column_readers s)) s) ;;
  let* s := get_this in
  create_readers_from 0 (schema_columns (_tablet_schema s)).

(** *** Segment::_open and Segment::open *)

Definition _open : M unit :=
  _parse_footer ;;
  _create_column_readers ;;
  modify_this (set_is_open true).

(** The constructor [Segment(fs, path, segment_id, tablet_schema)]. *)
Definition Segment_new (path : string) (segment_id : Z) (tablet_schema : TabletSchema)
    : Segment :=
  mkSegment path segment_id tablet_schema SegmentFooterPB_default false ∅ []
    (mkDorisCallOnce false OK) None None.

(** Modelled from the spec: [MemTracker::release(bytes)] is not part of the
    sources; the tracker is the counter that [consume] raises, [release]
    lowers it and [consumption()] reads it. *)
Definition release (bytes : Z) (w : World) : World :=
  mkWorld (files w) (io_log w) (mem_consumption w - bytes) (stats w).

(** [Segment::~Segment() { _mem_tracker->release(_mem_tracker->consumption()); }] *)
Definition Segment_destroy (w : World) : World :=
  release (mem_consumption w) w.

(** [Segment::open]: on success the output parameter, taken to be empty
    before the call, receives the new segment.  When [_open] fails,
    [RETURN_IF_ERROR] leaves the function and the local [shared_ptr], the
    only reference to the segment, destroys it. *)
Definition open (path : string) (segment_id : Z) (tablet_schema : TabletSchema)
    (w : World) : Result Segment * World :=
  match _open (mkEnv w (Segment_new path segment_id tablet_schema)) with
  | (inr _, e) => (inr (this e), world e)
  | (inl f, e) => (inl f, Segment_destroy (world e))
  end.

(** *** Segment::_load_index *)

(** Modelled from the spec: [DorisCallOnce::call] when calls do not overlap
    in time. *)
Definition call (fn : M unit) : M unit :=
  fun e =>
    let once := _load_index_once (this e) in
    if _has_called once then (_status once, e)
    else
      let '(st, e') := fn e in
      (st, mkEnv (world e') (set_load_index_once (mkDorisCallOnce true st) (this e'))).

(** [PageIO::read_and_decompress_page] on the page the pointer designates. *)
Definition read_page (r : FileReader) (page_pointer : PagePointerPB)
    : M (PageHandle * list byte * PageFooterPB) :=
  modify_world (log_io (ReadPage (fr_path r) page_pointer)) ;;
  lift (read_and_decompress_page (fr_data r) page_pointer).

(** The function that [_load_index] hands to [_load_index_once]. *)
Definition load_index_fn : M unit :=
  (* read and parse short key index page *)
  let* s := get_this in
  let* file_reader := open_file (_path s) in
  let* page := read_page file_reader (short_key_index_page (_footer s)) in
  let '(handle, body, footer) := page in
  modify_this (set_sk_index_handle (Some handle)) ;;
  modify_world (consume (Z.of_nat (length body))) ;;
  modify_this (set_sk_index_decoder (Some None)) ;;
  let* index := lift (ShortKeyIndexDecoder_parse body (short_key_page_footer footer)) in
  modify_this (set_sk_index_decoder (Some (Some index))).

Definition _load_index : M unit := call load_index_fn.

(** *** Segment::new_iterator *)

Record Schema : Set := mkSchema { schema_column_ids : list Z }.

(** [read_options.conditions]: [None] is the null pointer, otherwise the
    entries of [Conditions::columns()] in iteration order.  The statistics
    that [read_options.stats] points to are in the [World]. *)
Record StorageReadOptions : Type := mkStorageReadOptions {
  conditions : option (list (Z * CondColumn))
}.

(** The iterator classes are not part of the sources; an iterator is
    represented by its class, its constructor arguments (the segment by its
    id) and the options it was initialised with. *)
Inductive RowwiseIterator : Type :=
| EmptySegmentIterator (schema : Schema)
| SegmentIterator (segment_id : Z) (schema : Schema) (opts : option StorageReadOptions).

Definition RowwiseIterator_init (it : RowwiseIterator) (read_options : StorageReadOptions)
    : RowwiseIterator :=
  match it with
  | EmptySegmentIterator schema => EmptySegmentIterator schema
  | SegmentIterator id schema _ => SegmentIterator id schema (Some read_options)
  end.

(** [v[i]] on a [std::vector]; [None] outside the vector. *)
Definition vector_at {A} (v : list A) (i : Z) : option A :=
  if 0 <=? i then v !! Z.to_nat i else None.

(** The loop over [read_options.conditions->columns()]: [inr true] when it
    leaves the function because a condition is not satisfied, [inr false]
    when it runs to its end. *)
Fixpoint prune_by_zone_map (column_readers : list (option ColumnReader))
    (conds : list (Z * CondColumn)) : Result bool :=
  match conds with
  | [] => inr false
  | column_condition :: rest =>
      let column_id := fst column_condition in
      match vector_at column_readers column_id with
      | None => inl undefined_behaviour
      | Some None => prune_by_zone_map column_readers rest
      | Some (Some reader) =>
          if negb (has_zone_map reader) then prune_by_zone_map column_readers rest
          else if negb (match_condition reader (snd column_condition)) then inr true
          else prune_by_zone_map column_readers rest
      end
  end.

Definition incr_total_segment_number (w : World) : World :=
  set_stats (mkStats (total_segment_number (stats w) + 1)
                     (filtered_segment_number (stats w))) w.

Definition incr_filtered_segment_number (w : World) : World :=
  set_stats (mkStats (total_segment_number (stats w))
                     (filtered_segment_number (stats w) + 1)) w.

Definition new_iterator (schema : Schema) (read_options : StorageReadOptions)
    : M RowwiseIterator :=
  let* s := get_this in
  (if negb (_is_open s) then _open else ret tt) ;;
  modify_world incr_total_segment_number ;;
  (* trying to prune the current segment by segment-level zone map *)
  let* s := get_this in
  let* pruned :=
    lift (match conditions read_options with
          | Some conds => prune_by_zone_map (_column_readers s) conds
          | None => inr false
          end) in
  if (pruned : bool) then
    (* any condition not satisfied, return. *)
    modify_world incr_filtered_segment_number ;;
    ret (EmptySegmentIterator schema)
  else
    _load_index ;;
    let* s := get_this in
    ret (RowwiseIterator_init (SegmentIterator (_segment_id s) schema None) read_options).

(** *** Segment::new_column_iterator *)

Inductive ColumnIterator : Type :=
| DefaultValueIter (it : DefaultValueColumnIterator TypeInfo)
| FileIter (it : FileColumnIterator).

Definition new_column_iterator (cid : Z) : M ColumnIterator :=
  let* s := get_this in
  match vector_at (_column_readers s) cid with
  | None => fail undefined_behaviour
  | Some None =>
      match column (_tablet_schema s) cid with
      | None => fail undefined_behaviour
      | Some tablet_column =>
          if negb (has_default_value tablet_column) && negb (is_nullable tablet_column) then
            fail (InternalError "invalid nonexistent column without default value.")
          else
            let type_info := get_type_info tablet_column in
            let default_value_iter :=
              mkDefaultValueColumnIterator
                (has_default_value tablet_column) (default_value tablet_column)
                (is_nullable tablet_column) type_info (column_length tablet_column) in
            lift (DefaultValueColumnIterator_init default_value_iter) ;;
            ret (DefaultValueIter default_value_iter)
      end
  | Some (Some reader) =>
      let* it := lift (ColumnReader_new_iterator reader) in
      ret (FileIter it)
  end.

(** *** Segment::new_bitmap_index_iterator *)

Definition new_bitmap_index_iterator (cid : Z) : M (option BitmapIndexIterator) :=
  let* s := get_this in
  match vector_at (_column_readers s) cid with
  | None => fail undefined_behaviour
  | Some (Some reader) =>
      if has_bitmap_index reader then
        let* it := lift (ColumnReader_new_bitmap_index_iterator reader) in
        ret (Some it)
      else ret None
  | Some None => ret None
  end.

(** Every ordinal recorded for a column id designates a column of the
    footer. *)
Definition ordinals_valid (s : Segment) : Prop :=
  forall k v, _column_id_to_footer_ordinal s !! k = Some v ->
              (v < length (columns (_footer s)))%nat.

(** Some entry of the conditions names a column that has a reader with a zone
    map, and the zone map does not match the condition. *)
Definition some_condition_fails (column_readers : list (option ColumnReader))
    (conds : list (Z * CondColumn)) : Prop :=
  exists column_id cond reader,
    In (column_id, cond) conds
    /\ vector_at column_readers column_id = Some (Some reader)
    /\ has_zone_map reader = true
    /\ match_condition reader cond = false.

(** Every column id of the conditions is an index of the vector of
    readers. *)
Definition conditions_in_range (column_readers : list (option ColumnReader))
    (conds : list (Z * CondColumn)) : Prop :=
  forall column_id cond,
    In (column_id, cond) conds -> is_Some (vector_at column_readers column_id).

End Definitions.

End segment.

(** ** The layout of a segment file

    The vocabulary of the statements about [_parse_footer]: the parts of a
    file as the format names them. *)

Module segment_file.
Import status coding segment.

Section Layout.
Context `{Ext : Externals}.

Definition file_size (data : list byte) : Z := Z.of_nat (length data).

(** The trailer: the last 12 bytes of the file. *)
Definition trailer (data : list byte) : list byte := drop (length data - 12) data.

(** Everything before the trailer. *)
Definition body (data : list byte) : list byte := take (length data - 12) data.

Definition footer_length (data : list byte) : Z := decode_fixed32_le (trailer data).

Definition stored_checksum (data : list byte) : Z :=
  decode_fixed32_le (drop 4 (trailer data)).

Definition magic_matches (data : list byte) : bool :=
  memcmp_eq (drop 8 (trailer data)) k_segment_magic k_segment_magic_length.

(** The footer: the [footer_length] bytes that immediately precede the
    trailer (all the bytes before the trailer when there are fewer). *)
Definition footer_bytes (data : list byte) : list byte :=
  drop (length (body data) - Z.to_nat (footer_length data)) (body data).

Definition checksum_matches (data : list byte) : bool :=
  cxx.u32 (crc32c_Value (footer_bytes data)) =? stored_checksum data.

(** Four ways for a file to be corrupt: too small for the trailer, wrong
    magic number, wrong checksum, footer that does not parse. *)
Definition stated_corruption_cases (data : list byte) : Prop :=
  file_size data < 12
  \/ magic_matches data = false
  \/ checksum_matches data = false
  \/ ParseFromString (footer_bytes data) = None.

(** The same with a fifth: a footer length that exceeds what precedes the
    trailer. *)
Definition corruption_cases (data : list byte) : Prop :=
  file_size data < 12
  \/ magic_matches data = false
  \/ file_size data < 12 + footer_length data
  \/ checksum_matches data = false
  \/ ParseFromString (footer_bytes data) = None.

(** A file as the writer lays it out: pages, footer, then the trailer made of
    the footer's length, the footer's CRC32C and the magic number. *)
Definition well_formed_file (pages footer : list byte) : list byte :=
  pages ++ footer
    ++ encode_fixed32_le (Z.of_nat (length footer))
    ++ encode_fixed32_le (crc32c_Value footer)
    ++ k_segment_magic.

(** The requests [_parse_footer] makes for a file of the given size and
    footer length when it reaches the end of the function. *)
Definition two_reads (path : string) (size len : Z) : list IOEvent :=
  [OpenFile path; ReadAt path (size - 12) 12; ReadAt path (size - 12 - len) len].

Definition is_read (ev : IOEvent) : bool :=
  match ev with
  | ReadAt _ _ _ => true
  | ReadPage _ _ => true
  | OpenFile _ => false
  end.

End Layout.

End segment_file.

(** ** Threads calling [_load_index]

    Several threads call [_load_index] on one segment.  A thread runs the
    function handed to [_load_index_once] one collaborator call at a time,
    and the scheduler interleaves the threads at will. *)

Module load_index_threads.
Import status coding segment.

Section Threads.
Context `{Ext : Externals}.

(** Where a thread is in its call of [_load_index]. *)
Inductive Pc : Type :=
| Calling
| AtOpenFile
| AtReadPage (file_reader : FileReader)
| AtParse (page_body : list byte) (footer : PageFooterPB)
| AtPublish (st : Status)
| Returned (st : Status).

(** One step of the function of [_load_index]: the same calls in the same
    order as [load_index_fn]. *)
Definition fn_step (pc : Pc) (e : Env) : option (Pc * Env) :=
  match pc with
  | AtOpenFile =>
      match open_file (_path (this e)) e with
      | (inr file_reader, e') => Some (AtReadPage file_reader, e')
      | (inl f, e') => Some (AtPublish (inl f), e')
      end
  | AtReadPage file_reader =>
      match read_page file_reader (short_key_index_page (_footer (this e))) e with
      | (inr (handle, page_body, footer), e') =>
          Some (AtParse page_body footer,
                mkEnv (consume (Z.of_nat (length page_body)) (world e'))
                      (set_sk_index_decoder (Some None)
                         (set_sk_index_handle (Some handle) (this e'))))
      | (inl f, e') => Some (AtPublish (inl f), e')
      end
  | AtParse page_body footer =>
      match ShortKeyIndexDecoder_parse page_body (short_key_page_footer footer) with
      | inr index =>
          Some (AtPublish OK,
                mkEnv (world e) (set_sk_index_decoder (Some (Some index)) (this e)))
      | inl f => Some (AtPublish (inl f), e)
      end
  | _ => None
  end.

(** Modelled from the spec: the initialize-once cell under concurrent calls.
    The first caller performs the work; a caller that arrives while the work
    is in flight blocks until it completes; a caller that arrives after it
    observes the kept result.  [holder] is the thread performing the work. *)
Record Config : Type := mkConfig {
  env : Env;
  holder : option nat;
  threads : list Pc
}.

(** Modelled from the spec: the cell keeps the status of the work. *)
Definition publish (st : Status) (e : Env) : Env :=
  mkEnv (world e) (set_load_index_once (mkDorisCallOnce true st) (this e)).

(** Modelled from the spec: one step of thread [t]; [None] when the thread
    is blocked, has returned or does not exist. *)
Definition thread_step (t : nat) (c : Config) : option Config :=
  match threads c !! t with
  | None => None
  | Some Calling =>
      let once := _load_index_once (this (env c)) in
      if _has_called once then
        Some (mkConfig (env c) (holder c) (<[t := Returned (_status once)]> (threads c)))
      else
        match holder c with
        | None => Some (mkConfig (env c) (Some t) (<[t := AtOpenFile]> (threads c)))
        | Some _ => None
        end
  | Some (AtPublish st) =>
      Some (mkConfig (publish st (env c)) None (<[t := Returned st]> (threads c)))
  | Some (Returned _) => None
  | Some pc =>
      match fn_step pc (env c) with
      | Some (pc', e') => Some (mkConfig e' (holder c) (<[t := pc']> (threads c)))
      | None => None
      end
  end.

(** The scheduler picks the threads of the schedule in turn; picking a thread
    that cannot move leaves the configuration as it is. *)
Fixpoint run (schedule : list nat) (c : Config) : Config :=
  match schedule with
  | [] => c
  | t :: rest => run rest (default c (thread_step t c))
  end.

(** [n] threads about to call [_load_index]. *)
Definition initial (n : nat) (e0 : Env) : Config :=
  mkConfig e0 None (replicate n Calling).

Definition has_returned (pc : Pc) : bool :=
  match pc with Returned _ => true | _ => false end.

(** What is left of the work from a program counter on, done without
    interruption. *)
Definition finish_parse (page_body : list byte) (footer : PageFooterPB) (e : Env)
    : Status * Env :=
  match fn_step (AtParse page_body footer) e with
  | Some (AtPublish st, e') => (st, publish st e')
  | _ => (OK, e)
  end.

Definition finish_read (file_reader : FileReader) (e : Env) : Status * Env :=
  match fn_step (AtReadPage file_reader) e with
  | Some (AtParse page_body footer, e') => finish_parse page_body footer e'
  | Some (AtPublish st, e') => (st, publish st e')
  | _ => (OK, e)
  end.

Definition finish_open (e : Env) : Status * Env :=
  match fn_step AtOpenFile e with
  | Some (AtReadPage file_reader, e') => finish_read file_reader e'
  | Some (AtPublish st, e') => (st, publish st e')
  | _ => (OK, e)
  end.

Definition finish (pc : Pc) (e : Env) : Status * Env :=
  match pc with
  | AtOpenFile => finish_open e
  | AtReadPage file_reader => finish_read file_reader e
  | AtParse page_body footer => finish_parse page_body footer e
  | AtPublish st => (st, publish st e)
  | Calling => (OK, e)
  | Returned st => (st, e)
  end.

Definition working (pc : Pc) : bool :=
  match pc with
  | AtOpenFile | AtReadPage _ | AtParse _ _ | AtPublish _ => true
  | Calling | Returned _ => false
  end.

(** The three phases of a run of [n] threads that started from the segment
    [e0]: nobody has entered the function yet; one thread is in the function
    or about to publish its status and the others are still calling; the
    status is published and every thread is still calling or has returned
    it. *)
Inductive Phase (e0 : Env) (n : nat) (c : Config) : Prop :=
| Idle :
    _has_called (_load_index_once (this e0)) = false ->
    env c = e0 ->
    holder c = None ->
    threads c = replicate n Calling ->
    Phase e0 n c
| InFlight (t : nat) (pc : Pc) :
    _has_called (_load_index_once (this (env c))) = false ->
    holder c = Some t ->
    (t < n)%nat ->
    threads c = <[t := pc]> (replicate n Calling) ->
    working pc = true ->
    finish pc (env c) = _load_index e0 ->
    Phase e0 n c
| Done :
    _has_called (_load_index_once (this (env c))) = true ->
    _status (_load_index_once (this (env c))) = fst (_load_index e0) ->
    env c = snd (_load_index e0) ->
    Forall (fun pc => pc = Calling \/ pc = Returned (fst (_load_index e0))) (threads c) ->
    Phase e0 n c.

(** How many steps a thread may still take. *)
Definition steps_left (pc : Pc) : nat :=
  match pc with
  | Calling => 5
  | AtOpenFile => 4
  | AtReadPage _ => 3
  | AtParse _ _ => 2
  | AtPublish _ => 1
  | Returned _ => 0
  end.

Definition all_steps_left (c : Config) : nat :=
  foldr (fun pc n => (steps_left pc + n)%nat) 0%nat (threads c).

End Threads.

End load_index_threads.

(** ** An implementation of the collaborators

    Used to run the functions above on concrete files. *)

Module sample.
Import status coding segment segment_file.

(** CRC-32C (Castagnoli), bit by bit, reflected polynomial 0x82F63B78. *)
Definition crc32c_bit (crc : Z) : Z :=
  if Z.testbit crc 0 then Z.lxor (Z.shiftr crc 1) 0x82F63B78 else Z.shiftr crc 1.

Definition crc32c_byte (crc : Z) (b : byte) : Z :=
  Nat.iter 8 crc32c_bit (Z.lxor crc (byte_to_Z b)).

Definition crc32c (data : list byte) : Z :=
  Z.lxor (fold_left crc32c_byte data 0xFFFFFFFF) 0xFFFFFFFF.

(** The magic number of segment files, the bytes of "D0R1". *)
Definition magic : list byte := [x44; x30; x52; x31].

(** A stand-in for the protobuf parser: every byte of the payload declares
    one column, whose unique id is the value of the byte; the byte 0xff is
    malformed. *)
Fixpoint parse_columns (payload : list byte) : option (list ColumnMetaPB) :=
  match payload with
  | [] => Some []
  | b :: rest =>
      if bool_decide (b = xff) then None
      else match parse_columns rest with
           | Some cols => Some (mkColumnMetaPB (byte_to_Z b) [b] :: cols)
           | None => None
           end
  end.

Definition parse_footer_payload (payload : list byte) : option SegmentFooterPB :=
  match parse_columns payload with
  | Some cols => Some (mkSegmentFooterPB cols 0 (mkPagePointerPB 0 0))
  | None => None
  end.

Definition io_error : Failure := mkFailure IO_ERROR "offset exceeds file size".

(** A page is the range of the file the pointer designates; its body is the
    index. *)
Definition read_page_bytes (data : list byte) (page : PagePointerPB)
    : Result (unit * list byte * PageFooterPB) :=
  if (0 <=? pp_offset page) && (0 <=? pp_size page)
     && (pp_offset page + pp_size page <=? Z.of_nat (length data))
  then inr (tt, take (Z.to_nat (pp_size page)) (drop (Z.to_nat (pp_offset page)) data),
            mkPageFooterPB (mkShortKeyFooterPB 0))
  else inl io_error.

(** A column reader is the column's meta; a condition is its verdict on the
    zone map of the column ([true]: some row may match). *)
#[global] Instance externals : Externals := {|
  k_segment_magic := magic;
  crc32c_Value := crc32c;
  ParseFromString := parse_footer_payload;
  read_outside := fun _ _ _ => inl io_error;
  ColumnReader := ColumnMetaPB;
  ColumnReader_create := fun _ column_pb _ _ => inr column_pb;
  has_zone_map := fun _ => true;
  CondColumn := bool;
  match_condition := fun _ cond => cond;
  FileColumnIterator := ColumnMetaPB;
  ColumnReader_new_iterator := fun reader => inr reader;
  has_bitmap_index := fun _ => false;
  BitmapIndexIterator := unit;
  ColumnReader_new_bitmap_index_iterator := fun _ => inr tt;
  TypeInfo := unit;
  get_type_info := fun _ => tt;
  DefaultValueColumnIterator_init := fun _ => OK;
  PageHandle := unit;
  read_and_decompress_page := read_page_bytes;
  ShortKeyIndex := list byte;
  ShortKeyIndexDecoder_parse := fun body _ => inr body
|}.

Definition empty_stats : OlapReaderStatistics := mkStats 0 0.

(** A file system holding one file. *)
Definition one_file (path : string) (data : list byte) : World :=
  mkWorld {[ path := data ]} [] 0 empty_stats.

(** A schema of two columns; the second one was added later. *)
Definition two_columns : TabletSchema :=
  mkTabletSchema
    [mkTabletColumn 1 false "" false 4; mkTabletColumn 3 true "0" false 4] false.

(** Three bytes of pages and a footer declaring the columns 1 and 2. *)
Definition good_file : list byte := well_formed_file [x00; x00; x00] [x01; x02].

(** The last eight bytes of [good_file]. *)
Definition truncated_file : list byte := drop 9 good_file.

(** A trailer alone, announcing a footer of one byte. *)
Definition short_file : list byte :=
  [x01; x00; x00; x00; x00; x00; x00; x00; x44; x30; x52; x31].

(** A trailer alone, announcing a footer of 2^32 - 1 bytes. *)
Definition wrapping_file : list byte :=
  [xff; xff; xff; xff; x00; x00; x00; x00; x44; x30; x52; x31].

(** The segment that [Segment::open] makes of [good_file] under the schema
    [two_columns], with the world it leaves; the footer has no column with
    the unique id 3. *)
Definition opened : Env :=
  let '(r, w) := open "segment" 7 two_columns (one_file "segment" good_file) in
  mkEnv w (match r with
           | inr s => s
           | inl _ => Segment_new "segment" 7 two_columns
           end).

End sample.

(** ** More of tablet_meta.h *)

Module tablet_meta_more.
Import tablet_meta.

(** [RowsetTypePB] of olap_file.proto. *)
Inductive RowsetTypePB : Set :=
| ALPHA_ROWSET
| BETA_ROWSET.

Definition is_beta_rowset (t : RowsetTypePB) : bool :=
  match t with BETA_ROWSET => true | ALPHA_ROWSET => false end.

Section RowsetType.

(** [RowsetMeta::rowset_type()]: the class is only forward declared in the
    header, so the accessor is a parameter. *)
Variable rowset_type : RowsetMeta -> RowsetTypePB.

(** [for (auto& rs : l) if (rs->rowset_type() != BETA_ROWSET) return false;]:
    [false] when the loop returns, [true] when it runs to its end. *)
Fixpoint every_rowset_beta (l : list RowsetMeta) : bool :=
  match l with
  | [] => true
  | rs :: rest =>
      if negb (is_beta_rowset (rowset_type rs)) then false
      else every_rowset_beta rest
  end.

Definition all_beta (m : TabletMeta) : bool :=
  if negb (every_rowset_beta (_rs_metas m)) then false
  else if negb (every_rowset_beta (_stale_rs_metas m)) then false
  else true.

End RowsetType.

(** [TabletMeta::num_rows()], a [size_t] accumulator. *)
Definition TabletMeta_num_rows (m : TabletMeta) : Z :=
  fold_left (fun n rs => cxx.add_size n (num_rows rs)) (_rs_metas m) 0.

(** [clear_stale_rowset() { _stale_rs_metas.clear(); }] *)
Definition clear_stale_rowset (m : TabletMeta) : TabletMeta :=
  mkTabletMeta (_tablet_id m) (_tablet_state m) (_rs_metas m) [] (_in_restore_mode m).

Definition in_restore_mode (m : TabletMeta) : bool := _in_restore_mode m.

Definition set_in_restore_mode (m : TabletMeta) (b : bool) : TabletMeta :=
  mkTabletMeta (_tablet_id m) (_tablet_state m) (_rs_metas m) (_stale_rs_metas m) b.

(** The value of an integer converted to [int16_t]: the value modulo 2^16
    that lies in the range of the type (what C++20 prescribes for the
    narrowing, and what gcc and clang do for the earlier standards). *)
Definition int16 (x : Z) : Z := (x + 2 ^ 15) mod 2 ^ 16 - 2 ^ 15.

(** The identity members of [TabletMeta] with their setters and getters:
    [_schema_hash] and [_shard_id] are [int32_t], the other members are
    [int64_t]. *)
Record TabletMetaIds : Set := mkTabletMetaIds {
  _table_id : Z;
  _partition_id : Z;
  _replica_id : Z;
  _schema_hash : Z;
  _shard_id : Z;
  _creation_time : Z;
  _cumulative_layer_point : Z
}.

(** [int16_t TabletMeta::shard_id() const { return _shard_id; }] *)
Definition shard_id (m : TabletMetaIds) : Z := int16 (_shard_id m).

(** [void TabletMeta::set_shard_id(int32_t shard_id) { _shard_id = shard_id; }] *)
Definition set_shard_id (m : TabletMetaIds) (shard_id : Z) : TabletMetaIds :=
  mkTabletMetaIds (_table_id m) (_partition_id m) (_replica_id m) (_schema_hash m)
    shard_id (_creation_time m) (_cumulative_layer_point m).

Definition creation_time (m : TabletMetaIds) : Z := _creation_time m.

Definition set_creation_time (m : TabletMetaIds) (creation_time : Z) : TabletMetaIds :=
  mkTabletMetaIds (_table_id m) (_partition_id m) (_replica_id m) (_schema_hash m)
    (_shard_id m) creation_time (_cumulative_layer_point m).

End tablet_meta_more.

(** ** More of segment.cpp *)

Module segment_more.
Import status coding segment segment_file.

Section MoreDefinitions.
Context `{Ext : Externals}.

(** A request of [_parse_footer] that is acceptable for the file [data] at
    [path]: the opening of the file, or a read of bytes that the file
    has. *)
Definition request_in_file (path : string) (data : list byte) (ev : IOEvent) : Prop :=
  match ev with
  | OpenFile p => p = path
  | ReadAt p offset len =>
      p = path /\ 0 <= offset /\ 0 <= len /\ offset + len <= file_size data
  | ReadPage _ _ => False
  end.

(** The column readers that [_create_column_readers] has to create for a
    schema and a footer can all be created. *)
Definition readers_creatable (schema : TabletSchema) (footer : SegmentFooterPB)
    (path : string) : Prop :=
  forall col fo pb,
    col ∈ schema_columns schema ->
    index_footer_columns 0 (columns footer) ∅ !! unique_id col = Some fo ->
    columns footer !! fo = Some pb ->
    ok (ColumnReader_create (mkColumnReaderOptions (is_in_memory schema)) pb
          (num_rows footer) path) = true.

(** A file made of pages, a footer and a trailer whose fields announce the
    footer length [len] and the checksum [sum]. *)
Definition laid_out_file (pages footer : list byte) (len sum : Z) : list byte :=
  pages ++ footer ++ encode_fixed32_le len ++ encode_fixed32_le sum ++ k_segment_magic.

End MoreDefinitions.

End segment_more.

(** ** More concrete data *)

Module sample_more.
Import status coding segment segment_file segment_more sample.

(** [good_file] with the second byte of its footer changed after the trailer
    was written. *)
Definition tampered_file : list byte :=
  laid_out_file [x00; x00; x00] [x01; x03] 2 (crc32c [x01; x02]).

(** The collaborators of [sample], except that the short key index never
    parses. *)
Definition externals_unparsable_index : Externals := {|
  k_segment_magic := magic;
  crc32c_Value := crc32c;
  ParseFromString := parse_footer_payload;
  read_outside := fun _ _ _ => inl io_error;
  ColumnReader := ColumnMetaPB;
  ColumnReader_create := fun _ column_pb _ _ => inr column_pb;
  has_zone_map := fun _ => true;
  CondColumn := bool;
  match_condition := fun _ cond => cond;
  FileColumnIterator := ColumnMetaPB;
  ColumnReader_new_iterator := fun reader => inr reader;
  has_bitmap_index := fun _ => false;
  BitmapIndexIterator := unit;
  ColumnReader_new_bitmap_index_iterator := fun _ => inr tt;
  TypeInfo := unit;
  get_type_info := fun _ => tt;
  DefaultValueColumnIterator_init := fun _ => OK;
  PageHandle := unit;
  read_and_decompress_page := read_page_bytes;
  ShortKeyIndex := list byte;
  ShortKeyIndexDecoder_parse := fun _ _ => inl (Corruption "bad short key index")
|}.

(** The collaborators of [sample], except that the default value of a
    column never yields a value of its type: [DefaultValueColumnIterator::init]
    fails. *)
Definition externals_failing_init : Externals := {|
  k_segment_magic := magic;
  crc32c_Value := crc32c;
  ParseFromString := parse_footer_payload;
  read_outside := fun _ _ _ => inl io_error;
  ColumnReader := ColumnMetaPB;
  ColumnReader_create := fun _ column_pb _ _ => inr column_pb;
  has_zone_map := fun _ => true;
  CondColumn := bool;
  match_condition := fun _ cond => cond;
  FileColumnIterator := ColumnMetaPB;
  ColumnReader_new_iterator := fun reader => inr reader;
  has_bitmap_index := fun _ => false;
  BitmapIndexIterator := unit;
  ColumnReader_new_bitmap_index_iterator := fun _ => inr tt;
  TypeInfo := unit;
  get_type_info := fun _ => tt;
  DefaultValueColumnIterator_init :=
    fun _ => inl (InternalError "get value of type from default value failed.");
  PageHandle := unit;
  read_and_decompress_page := read_page_bytes;
  ShortKeyIndex := list byte;
  ShortKeyIndexDecoder_parse := fun body _ => inr body
|}.

(** A segment that was constructed and not opened, on a file system holding
    [good_file]. *)
Definition fresh `{Ext : Externals} : Env :=
  mkEnv (mkWorld {[ "segment"%string := good_file ]} [] 0 empty_stats)
        (Segment_new "segment" 7 two_columns).

(** The segment that [Segment::open] makes of [good_file] under the schema
    [two_columns], whatever the collaborators are. *)
Definition opened_with `{Ext : Externals} : Env :=
  let '(r, w) := open "segment" 7 two_columns (one_file "segment" good_file) in
  mkEnv w (match r with
           | inr s => s
           | inl _ => Segment_new "segment" 7 two_columns
           end).

End sample_more.

(** * Properties *)

(** ** Tablet metadata *)

Section TabletMetaFacts.
Import tablet_meta.

Lemma usize_range (x : Z) : 0 <= cxx.usize x < cxx.SIZE_MOD.
Proof. unfold cxx.usize, cxx.SIZE_MOD. apply Z.mod_pos_bound. lia. Qed.

Lemma usize_small (x : Z) : 0 <= x < cxx.SIZE_MOD -> cxx.usize x = x.
Proof. intros H. unfold cxx.usize. now apply Z.mod_small. Qed.

Lemma add_size_usize_l (a b : Z) : cxx.add_size (cxx.usize a) b = cxx.usize (a + b).
Proof. unfold cxx.add_size, cxx.usize. now rewrite Zplus_mod_idemp_l. Qed.

(** The sum, in the integers, of the sizes of the rowsets that [keep]
    selects. *)
Lemma fold_size_sum (keep : RowsetMeta -> bool) (l : list RowsetMeta) (acc : Z) :
  fold_left (fun total_size rs =>
               if keep rs then cxx.add_size total_size (data_disk_size rs)
               else total_size) l (cxx.usize acc)
  = cxx.usize (acc + fold_right (fun rs s => (if keep rs then data_disk_size rs else 0) + s) 0 l).
Proof.
  revert acc. induction l as [|rs l IH]; intros acc; simpl.
  - now rewrite Z.add_0_r.
  - destruct (keep rs).
    + rewrite add_size_usize_l, IH. f_equal. lia.
    + rewrite IH. f_equal.
Qed.

Lemma fold_size_sum0 (keep : RowsetMeta -> bool) (l : list RowsetMeta) :
  fold_left (fun total_size rs =>
               if keep rs then cxx.add_size total_size (data_disk_size rs)
               else total_size) l 0
  = cxx.usize (fold_right (fun rs s => (if keep rs then data_disk_size rs else 0) + s) 0 l).
Proof. exact (fold_size_sum keep l 0). Qed.

Lemma footprint_sum (m : TabletMeta) :
  tablet_footprint m
  = cxx.usize (fold_right (fun rs s => data_disk_size rs + s) 0 (_rs_metas m)).
Proof. exact (fold_size_sum0 (fun _ => true) (_rs_metas m)). Qed.

Lemma local_size_sum (m : TabletMeta) :
  tablet_local_size m
  = cxx.usize (fold_right (fun rs s => (if is_local rs then data_disk_size rs else 0) + s)
                          0 (_rs_metas m)).
Proof. exact (fold_size_sum0 is_local (_rs_metas m)). Qed.

Lemma remote_size_sum (m : TabletMeta) :
  tablet_remote_size m
  = cxx.usize (fold_right
                 (fun rs s => (if negb (is_local rs) then data_disk_size rs else 0) + s)
                 0 (_rs_metas m)).
Proof. exact (fold_size_sum0 (fun rs => negb (is_local rs)) (_rs_metas m)). Qed.

Lemma split_sum (l : list RowsetMeta) :
  fold_right (fun rs s => data_disk_size rs + s) 0 l
  = fold_right (fun rs s => (if is_local rs then data_disk_size rs else 0) + s) 0 l
    + fold_right (fun rs s => (if negb (is_local rs) then data_disk_size rs else 0) + s) 0 l.
Proof.
  induction l as [|rs l IH]; simpl; [reflexivity|].
  rewrite IH. destruct (is_local rs); simpl; lia.
Qed.

(** C10: in [size_t] arithmetic the footprint is the local size plus the
    remote size, whatever the rowsets are; as integers the sum exceeds the
    footprint by 2^64 exactly when the addition wraps.  The footprint reads
    only [_rs_metas]: the stale rowsets do not enter it. *)
Theorem tablet_footprint_local_plus_remote (m : TabletMeta) :
  tablet_footprint m = cxx.add_size (tablet_local_size m) (tablet_remote_size m)
  /\ tablet_footprint m
     = tablet_local_size m + tablet_remote_size m
       - (if tablet_local_size m + tablet_remote_size m <? cxx.SIZE_MOD
          then 0 else cxx.SIZE_MOD)
  /\ tablet_footprint m
     = cxx.usize (fold_right (fun rs s => data_disk_size rs + s) 0 (_rs_metas m))
  /\ forall stale,
       tablet_footprint
         (mkTabletMeta (_tablet_id m) (_tablet_state m) (_rs_metas m) stale
                       (_in_restore_mode m))
       = tablet_footprint m.
Proof.
  assert (Hmod : tablet_footprint m
                 = cxx.add_size (tablet_local_size m) (tablet_remote_size m)).
  { rewrite footprint_sum, local_size_sum, remote_size_sum, split_sum.
    unfold cxx.add_size, cxx.usize. now rewrite <- Zplus_mod. }
  split; [exact Hmod|]. split; [|split].
  - rewrite Hmod.
    assert (Hl : 0 <= tablet_local_size m < cxx.SIZE_MOD).
    { rewrite local_size_sum. apply usize_range. }
    assert (Hr : 0 <= tablet_remote_size m < cxx.SIZE_MOD).
    { rewrite remote_size_sum. apply usize_range. }
    unfold cxx.add_size, cxx.usize.
    destruct (Z.ltb_spec (tablet_local_size m + tablet_remote_size m) cxx.SIZE_MOD).
    + rewrite Z.mod_small; lia.
    + symmetry. apply Zmod_unique with (q := 1); lia.
  - apply footprint_sum.
  - reflexivity.
Qed.

Lemma set_tablet_state_stores (m : TabletMeta) (s : TabletState) :
  tablet_state (set_tablet_state m s) = s.
Proof. reflexivity. Qed.

Lemma legal_transition_forward (a b : TabletState) :
  legal_transition a b -> state_value a < state_value b.
Proof. destruct 1; simpl; lia. Qed.

Lemma state_history_shape (m : TabletMeta) (calls : list TabletState) :
  state_history m calls = tablet_state m :: calls.
Proof.
  revert m. induction calls as [|s rest IH]; intros m; simpl; [reflexivity|].
  now rewrite IH.
Qed.

Lemma legal_calls_sorted (from : TabletState) (calls : list TabletState) :
  legal_calls from calls ->
  StronglySorted (fun a b => state_value a < state_value b) (from :: calls).
Proof.
  revert from. induction calls as [|s rest IH]; intros from Hlegal.
  - repeat constructor.
  - destruct Hlegal as [Hstep Hrest].
    specialize (IH s Hrest).
    apply legal_transition_forward in Hstep.
    constructor; [exact IH|].
    constructor; [exact Hstep|].
    apply StronglySorted_inv in IH. destruct IH as [_ Hall].
    eapply Forall_impl; [exact Hall|]. simpl. intros c Hc. lia.
Qed.

(** C4, as amended: [set_tablet_state] stores the state it is given without
    looking at the current one.  When every call of a sequence asks for a
    legal transition out of the state the tablet is in, each state of the
    history comes strictly before all later ones in the order of the
    enumeration, so no step moves backward. *)
Theorem set_tablet_state_forward_when_legal (m : TabletMeta) (calls : list TabletState) :
  legal_calls (tablet_state m) calls ->
  (forall s, tablet_state (set_tablet_state m s) = s)
  /\ StronglySorted (fun a b => state_value a < state_value b) (state_history m calls)
  /\ forall i a b,
       state_history m calls !! i = Some a ->
       state_history m calls !! S i = Some b ->
       ~ moves_backward a b.
Proof.
  intros Hlegal. split; [reflexivity|].
  assert (Hsorted := legal_calls_sorted _ _ Hlegal).
  rewrite state_history_shape. split; [exact Hsorted|].
  intros i a b Ha Hb. unfold moves_backward.
  revert Hsorted Ha Hb. generalize (tablet_state m :: calls). clear.
  intros l. revert i. induction l as [|x l IH]; intros i Hs Ha Hb; [discriminate|].
  apply StronglySorted_inv in Hs. destruct Hs as [Hs Hall].
  destruct i as [|i].
  - simpl in Ha. injection Ha as ->. simpl in Hb.
    destruct l as [|y l]; [discriminate|]. simpl in Hb. injection Hb as ->.
    apply Forall_inv in Hall. lia.
  - simpl in Ha, Hb. eapply IH; eauto.
Qed.

(** A run of legal calls from the default tablet meta. *)
Lemma set_tablet_state_forward_when_legal_witness :
  legal_calls (tablet_state TabletMeta_default)
              [TABLET_RUNNING; TABLET_STOPPED; TABLET_SHUTDOWN]
  /\ StronglySorted (fun a b => state_value a < state_value b)
       (state_history TabletMeta_default
                      [TABLET_RUNNING; TABLET_STOPPED; TABLET_SHUTDOWN]).
Proof.
  assert (H : legal_calls (tablet_state TabletMeta_default)
                          [TABLET_RUNNING; TABLET_STOPPED; TABLET_SHUTDOWN]).
  { simpl. repeat split; constructor. }
  split; [exact H|].
  exact (proj1 (proj2 (set_tablet_state_forward_when_legal TabletMeta_default _ H))).
Defined.

(** C4, as stated, fails: nothing stops a caller from setting RUNNING on a
    tablet that is in SHUTDOWN. *)
Lemma set_tablet_state_moves_backward :
  state_history TabletMeta_default [TABLET_SHUTDOWN; TABLET_RUNNING]
  = [TABLET_NOTREADY; TABLET_SHUTDOWN; TABLET_RUNNING]
  /\ tablet_state
       (run_set_tablet_state TabletMeta_default [TABLET_SHUTDOWN; TABLET_RUNNING])
     = TABLET_RUNNING
  /\ moves_backward TABLET_SHUTDOWN TABLET_RUNNING.
Proof. repeat split. Qed.

End TabletMetaFacts.

(** ** Delete bitmap *)

Section DeleteBitmapFacts.
Import delete_bitmap.

Lemma add_contains (bm : DeleteBitmap) (k : BitmapKey) (r : Z) :
  contains k r (add k r bm) = true.
Proof.
  unfold contains, add. simpl. rewrite lookup_insert_eq.
  apply bool_decide_eq_true. apply elem_of_union_l. now apply elem_of_singleton.
Qed.

Lemma contains_remove_other_key (bm : DeleteBitmap) (k k' : BitmapKey) (r r' : Z) :
  k <> k' -> contains k' r' (snd (remove k r bm)) = contains k' r' bm.
Proof.
  intros Hne. unfold remove, contains.
  destruct (delete_bitmap bm !! k) as [rows|] eqn:Hk; simpl; [|reflexivity].
  now rewrite lookup_insert_ne.
Qed.

(** C7: on a key that has no bitmap [remove] answers the non-zero "not found"
    value and hands back the structure as it was; on a key that has one it
    answers zero, the row is no longer marked, and the marks of the other
    rows of the key are as before. *)
Theorem remove_not_found_or_removed (bm : DeleteBitmap) (k : BitmapKey) (r : Z) :
  match delete_bitmap bm !! k with
  | None =>
      remove k r bm = (REMOVE_NOT_FOUND, bm) /\ REMOVE_NOT_FOUND <> 0
  | Some rows =>
      fst (remove k r bm) = 0
      /\ fst (remove k r bm) <> REMOVE_NOT_FOUND
      /\ contains k r (snd (remove k r bm)) = false
      /\ delete_bitmap (snd (remove k r bm)) !! k = Some (rows ∖ {[r]})
      /\ forall r', r' <> r ->
           contains k r' (snd (remove k r bm)) = contains k r' bm
  end.
Proof.
  unfold remove, contains.
  destruct (delete_bitmap bm !! k) as [rows|] eqn:Hk.
  - simpl. rewrite lookup_insert_eq.
    repeat split.
    + unfold REMOVE_NOT_FOUND. lia.
    + apply bool_decide_eq_false. rewrite elem_of_difference, elem_of_singleton. tauto.
    + intros r' Hne. apply bool_decide_ext.
      rewrite elem_of_difference, elem_of_singleton. tauto.
  - split; [reflexivity|]. unfold REMOVE_NOT_FOUND. lia.
Qed.

End DeleteBitmapFacts.

(** ** Fixed-width coding *)

Section CodingFacts.
Import coding.

Lemma byte_to_Z_range (b : byte) : 0 <= byte_to_Z b < 256.
Proof.
  unfold byte_to_Z. pose proof (Byte.to_N_bounded b) as H. lia.
Qed.

Lemma byte_to_of_Z (z : Z) : byte_to_Z (byte_of_Z z) = z mod 256.
Proof.
  unfold byte_to_Z, byte_of_Z.
  assert (Hr : 0 <= z mod 256 < 256) by (apply Z.mod_pos_bound; lia).
  destruct (Byte.of_N (Z.to_N (z mod 256))) as [y|] eqn:Hy; simpl.
  - apply Byte.to_of_N in Hy. rewrite Hy. lia.
  - apply Byte.of_N_None_iff in Hy. lia.
Qed.

Lemma land_low_shiftl (a b n : Z) :
  0 <= n -> 0 <= a < 2 ^ n -> Z.land a (Z.shiftl b n) = 0.
Proof.
  intros Hn Ha. apply Z.bits_inj'. intros m Hm.
  rewrite Z.land_spec, Z.bits_0.
  destruct (Z.lt_ge_cases m n) as [Hlt|Hge].
  - rewrite Z.shiftl_spec_low by lia. apply andb_false_r.
  - rewrite <- (Z.mod_small a (2 ^ n)) by lia.
    rewrite Z.mod_pow2_bits_high by lia. reflexivity.
Qed.

Lemma lor_low_shiftl (a b n : Z) :
  0 <= n -> 0 <= a < 2 ^ n -> Z.lor a (Z.shiftl b n) = a + b * 2 ^ n.
Proof.
  intros Hn Ha.
  rewrite <- Z.add_nocarry_lor by now apply land_low_shiftl.
  now rewrite Z.shiftl_mul_pow2.
Qed.

(** The little-endian value of four bytes, in arithmetic. *)
Lemma decode_fixed32_le_sum (b0 b1 b2 b3 : byte) (rest : list byte) :
  decode_fixed32_le (b0 :: b1 :: b2 :: b3 :: rest)
  = byte_to_Z b0 + byte_to_Z b1 * 2 ^ 8 + byte_to_Z b2 * 2 ^ 16 + byte_to_Z b3 * 2 ^ 24.
Proof.
  pose proof (byte_to_Z_range b0). pose proof (byte_to_Z_range b1).
  pose proof (byte_to_Z_range b2). pose proof (byte_to_Z_range b3).
  unfold decode_fixed32_le.
  change (Z.shiftl (byte_to_Z b3) 24) with (Z.shiftl (byte_to_Z b3) (8 + 16)).
  rewrite <- (Z.shiftl_shiftl (byte_to_Z b3) 8 16) by lia.
  rewrite <- Z.shiftl_lor.
  rewrite (lor_low_shiftl (byte_to_Z b2) (byte_to_Z b3) 8) by lia.
  change (Z.shiftl (byte_to_Z b2 + byte_to_Z b3 * 2 ^ 8) 16)
    with (Z.shiftl (byte_to_Z b2 + byte_to_Z b3 * 2 ^ 8) (8 + 8)).
  rewrite <- (Z.shiftl_shiftl _ 8 8) by lia.
  rewrite <- Z.shiftl_lor.
  rewrite (lor_low_shiftl (byte_to_Z b1) _ 8) by lia.
  rewrite (lor_low_shiftl (byte_to_Z b0) _ 8) by lia.
  lia.
Qed.

Lemma decode_fixed32_le_range (buf : list byte) :
  0 <= decode_fixed32_le buf < 2 ^ 32.
Proof.
  destruct buf as [|b0 [|b1 [|b2 [|b3 rest]]]]; try (simpl; lia).
  rewrite decode_fixed32_le_sum.
  pose proof (byte_to_Z_range b0). pose proof (byte_to_Z_range b1).
  pose proof (byte_to_Z_range b2). pose proof (byte_to_Z_range b3).
  lia.
Qed.

(** Decoding what was encoded gives the value back, as a [uint32_t]. *)
Lemma decode_encode_fixed32_le (v : Z) (rest : list byte) :
  decode_fixed32_le (encode_fixed32_le v ++ rest) = cxx.u32 v.
Proof.
  unfold encode_fixed32_le. simpl app.
  rewrite decode_fixed32_le_sum, !byte_to_of_Z.
  rewrite !Z.shiftr_div_pow2 by lia.
  unfold cxx.u32, cxx.UINT32_MOD.
  change (2 ^ 32) with (2 ^ 8 * (2 ^ 8 * (2 ^ 8 * 2 ^ 8))).
  rewrite (Z.rem_mul_r v (2 ^ 8)) by lia.
  rewrite (Z.rem_mul_r (v / 2 ^ 8) (2 ^ 8)) by lia.
  rewrite (Z.rem_mul_r (v / 2 ^ 8 / 2 ^ 8) (2 ^ 8)) by lia.
  rewrite !Z.div_div by lia.
  change (2 ^ 8 * 2 ^ 8) with (2 ^ 16).
  change (2 ^ 16 * 2 ^ 8) with (2 ^ 24).
  change 256 with (2 ^ 8). lia.
Qed.

Lemma length_encode_fixed32_le (v : Z) : length (encode_fixed32_le v) = 4%nat.
Proof. reflexivity. Qed.

End CodingFacts.

(** ** Parsing the footer *)

Section ParseFooterFacts.
Import status coding segment segment_file.
Context `{Ext : Externals}.

Lemma length_trailer (data : list byte) :
  12 <= file_size data -> length (trailer data) = 12%nat.
Proof. unfold file_size, trailer. rewrite length_drop. lia. Qed.

Lemma length_body (data : list byte) : length (body data) = (length data - 12)%nat.
Proof. unfold body. rewrite length_take. lia. Qed.

(** The first read returns the trailer. *)
Lemma read_trailer (data : list byte) :
  12 <= file_size data ->
  take (Z.to_nat 12) (drop (Z.to_nat (file_size data - 12)) data) = trailer data.
Proof.
  intros H. unfold file_size, trailer in *.
  replace (Z.to_nat (Z.of_nat (length data) - 12)) with (length data - 12)%nat by lia.
  apply take_ge. rewrite length_drop. lia.
Qed.

(** The second read returns the footer. *)
Lemma read_footer (data : list byte) (len : Z) :
  0 <= len -> 12 + len <= file_size data ->
  take (Z.to_nat len) (drop (Z.to_nat (file_size data - 12 - len)) data)
  = drop (length (body data) - Z.to_nat len) (body data).
Proof.
  intros H0 H. unfold file_size in *. rewrite length_body. unfold body.
  replace (Z.to_nat (Z.of_nat (length data) - 12 - len))
    with (length data - 12 - Z.to_nat len)%nat by lia.
  rewrite take_drop_commute. do 2 f_equal. lia.
Qed.

Lemma sub_size_exact (a b : Z) :
  0 <= b <= a -> a < cxx.SIZE_MOD -> cxx.sub_size a b = a - b.
Proof. intros H1 H2. unfold cxx.sub_size. apply usize_small. lia. Qed.

(** [_parse_footer] on a segment whose file holds [data], statement by
    statement. *)
Lemma parse_footer_unfold (e : Env) (data : list byte) :
  files (world e) !! _path (this e) = Some data ->
  file_size data < cxx.SIZE_MOD ->
  let path := _path (this e) in
  let size := file_size data in
  let len := footer_length data in
  let offset := cxx.sub_size (size - 12) len in
  let w1 := log_io (OpenFile path) (world e) in
  let w2 := log_io (ReadAt path (size - 12) 12) w1 in
  let w3 := log_io (ReadAt path offset len) (consume len w2) in
  _parse_footer e =
    if size <? 12 then
      (inl (Corruption "Bad segment file {}: file size {} < 12"), mkEnv w1 (this e))
    else if negb (magic_matches data) then
      (inl (Corruption "Bad segment file {}: magic number not match"), mkEnv w2 (this e))
    else if size <? cxx.add_u32 12 len then
      (inl (Corruption "Bad segment file {}: file size {} < {}"), mkEnv w2 (this e))
    else
      match (if in_file (mkFileReader path data) offset len
             then inr (take (Z.to_nat len) (drop (Z.to_nat offset) data))
             else read_outside data offset len) with
      | inl f => (inl f, mkEnv w3 (this e))
      | inr footer_buf =>
          if negb (cxx.u32 (crc32c_Value footer_buf) =? stored_checksum data) then
            (inl (Corruption
                    "Bad segment file {}: footer checksum not match, actual={} vs expect={}"),
             mkEnv w3 (this e))
          else
            match ParseFromString footer_buf with
            | None =>
                (inl (Corruption "Bad segment file {}: failed to parse SegmentFooterPB"),
                 mkEnv w3 (this e))
            | Some footer => (inr tt, mkEnv w3 (set_footer footer (this e)))
            end
      end.
Proof.
  intros Hfile Hsize. cbv zeta.
  unfold _parse_footer, bind, get_this, open_file, bind, modify_world, get_world. simpl.
  rewrite Hfile. unfold ret at 1.
  change (FileReader_size (mkFileReader (_path (this e)) data)) with (file_size data).
  destruct (Z.ltb_spec (file_size data) 12) as [Hlt|Hge]; [reflexivity|].
  rewrite (sub_size_exact (file_size data) 12) by lia.
  unfold read_at at 1, bind, modify_world. simpl.
  assert (Hin : in_file (mkFileReader (_path (this e)) data) (file_size data - 12) 12 = true).
  { unfold in_file. change (FileReader_size _) with (file_size data).
    rewrite !andb_true_iff, !Z.leb_le. lia. }
  rewrite Hin. unfold ret at 1. simpl fr_data.
  rewrite (read_trailer data Hge).
  fold (magic_matches data). fold (footer_length data). fold (stored_checksum data).
  destruct (magic_matches data); [|reflexivity]. simpl negb. cbv iota.
  destruct (file_size data <? cxx.add_u32 12 (footer_length data)); [reflexivity|].
  unfold read_at, bind, modify_world. simpl. clear Hin.
  destruct (in_file _ _ _).
  - unfold ret at 1.
    destruct (negb _); [reflexivity|].
    destruct (ParseFromString _); reflexivity.
  - unfold lift at 1.
    destruct (read_outside _ _ _) as [f|footer_buf]; [reflexivity|].
    destruct (negb _); [reflexivity|].
    destruct (ParseFromString _); reflexivity.
Qed.

(** Whatever the file holds, [_parse_footer] opens it once and makes at most
    two read requests, the trailer first. *)
Lemma parse_footer_reads_bound (e : Env) (data : list byte) :
  files (world e) !! _path (this e) = Some data ->
  file_size data < cxx.SIZE_MOD ->
  exists requests,
    io_log (world (snd (_parse_footer e))) = io_log (world e) ++ requests
    /\ requests `prefix_of`
         [OpenFile (_path (this e));
          ReadAt (_path (this e)) (file_size data - 12) 12;
          ReadAt (_path (this e))
                 (cxx.sub_size (file_size data - 12) (footer_length data))
                 (footer_length data)].
Proof.
  intros Hfile Hsize. rewrite (parse_footer_unfold e data Hfile Hsize). cbv zeta.
  assert (H1 : exists requests,
             io_log (world e) ++ [OpenFile (_path (this e))] = io_log (world e) ++ requests
             /\ requests `prefix_of`
                  [OpenFile (_path (this e));
                   ReadAt (_path (this e)) (file_size data - 12) 12;
                   ReadAt (_path (this e))
                          (cxx.sub_size (file_size data - 12) (footer_length data))
                          (footer_length data)]).
  { eexists. split; [reflexivity|]. now eexists. }
  assert (H2 : exists requests,
             (io_log (world e) ++ [OpenFile (_path (this e))])
               ++ [ReadAt (_path (this e)) (file_size data - 12) 12]
             = io_log (world e) ++ requests
             /\ requests `prefix_of`
                  [OpenFile (_path (this e));
                   ReadAt (_path (this e)) (file_size data - 12) 12;
                   ReadAt (_path (this e))
                          (cxx.sub_size (file_size data - 12) (footer_length data))
                          (footer_length data)]).
  { eexists. split; [now rewrite <- app_assoc|]. now eexists. }
  assert (H3 : exists requests,
             ((io_log (world e) ++ [OpenFile (_path (this e))])
                ++ [ReadAt (_path (this e)) (file_size data - 12) 12])
               ++ [ReadAt (_path (this e))
                          (cxx.sub_size (file_size data - 12) (footer_length data))
                          (footer_length data)]
             = io_log (world e) ++ requests
             /\ requests `prefix_of`
                  [OpenFile (_path (this e));
                   ReadAt (_path (this e)) (file_size data - 12) 12;
                   ReadAt (_path (this e))
                          (cxx.sub_size (file_size data - 12) (footer_length data))
                          (footer_length data)]).
  { eexists. split; [now rewrite <- !app_assoc|]. reflexivity. }
  destruct (file_size data <? 12); [exact H1|].
  destruct (negb (magic_matches data)); [exact H2|].
  destruct (file_size data <? cxx.add_u32 12 (footer_length data)); [exact H2|].
  destruct (if in_file _ _ _ then _ else _) as [f|footer_buf]; [exact H3|].
  destruct (negb _); [exact H3|].
  destruct (ParseFromString footer_buf); exact H3.
Qed.

End ParseFooterFacts.

(** ** Creating the column readers *)

Section ColumnReaderFacts.
Import status coding segment segment_file.
Context `{Ext : Externals}.

Lemma index_footer_columns_bound (cols : list ColumnMetaPB) :
  forall (ordinal : nat) (m : gmap Z nat),
    (forall k v, m !! k = Some v -> (v < ordinal + length cols)%nat) ->
    forall k v, index_footer_columns ordinal cols m !! k = Some v ->
                (v < ordinal + length cols)%nat.
Proof.
  induction cols as [|column_pb rest IH]; intros ordinal m Hm k v; simpl.
  - apply Hm.
  - intros Hlk.
    assert (Hgoal : (v < S ordinal + length rest)%nat); [|lia].
    eapply IH; [|exact Hlk].
    intros k' v'. unfold emplace.
    destruct (m !! pb_unique_id column_pb) eqn:Hold.
    + intros H'. apply Hm in H'. simpl in H'. lia.
    + destruct (decide (pb_unique_id column_pb = k')) as [->|Hne].
      * rewrite lookup_insert_eq. intros [= <-]. lia.
      * rewrite lookup_insert_ne by exact Hne. intros H'. apply Hm in H'.
        simpl in H'. lia.
Qed.

Lemma create_readers_from_ok (cols : list TabletColumn) :
  (forall opts pb n p, ok (ColumnReader_create opts pb n p) = true) ->
  forall (ordinal : nat) (e : Env),
    ordinals_valid (this e) ->
    exists readers,
      create_readers_from ordinal cols e
      = (inr tt, mkEnv (world e) (set_column_readers readers (this e))).
Proof.
  intros Hcreate. induction cols as [|col rest IH]; intros ordinal e Hvalid; simpl.
  - exists (_column_readers (this e)). unfold ret. destruct e as [w s]. destruct s.
    reflexivity.
  - unfold bind at 1, get_this at 1.
    destruct (_column_id_to_footer_ordinal (this e) !! unique_id col) as [fo|] eqn:Hfo.
    + pose proof (Hvalid _ _ Hfo) as Hlt.
      apply lookup_lt_is_Some_2 in Hlt. destruct Hlt as [pb Hpb]. rewrite Hpb.
      unfold bind at 1, lift at 1.
      specialize (Hcreate (mkColumnReaderOptions (is_in_memory (_tablet_schema (this e))))
                          pb (num_rows (_footer (this e))) (_path (this e))).
      destruct (ColumnReader_create _ _ _ _) as [f|reader]; [discriminate|].
      unfold bind at 1, modify_this at 1. simpl.
      edestruct (IH (S ordinal)
                   (mkEnv (world e)
                      (set_column_readers
                         (<[ordinal := Some reader]> (_column_readers (this e))) (this e))))
        as [readers Hr].
      { exact Hvalid. }
      rewrite Hr. exists readers. reflexivity.
    + apply IH. exact Hvalid.
Qed.

Lemma create_column_readers_ok (e : Env) :
  (forall opts pb n p, ok (ColumnReader_create opts pb n p) = true) ->
  _column_id_to_footer_ordinal (this e) = ∅ ->
  exists readers ordinals,
    _create_column_readers e
    = (inr tt,
       mkEnv (world e)
         (set_column_readers readers (set_column_id_to_footer_ordinal ordinals (this e)))).
Proof.
  intros Hcreate Hempty. unfold _create_column_readers.
  unfold bind, modify_this, get_this. simpl.
  edestruct (create_readers_from_ok
               (schema_columns (_tablet_schema (this e))) Hcreate 0%nat) as [readers Hr];
    [|rewrite Hr; eexists _, _; reflexivity].
  intros k v. simpl. rewrite Hempty.
  apply (index_footer_columns_bound (columns (_footer (this e))) 0 ∅).
  intros k' v'. rewrite lookup_empty. discriminate.
Qed.

End ColumnReaderFacts.

(** ** Opening a segment *)

Section OpenFacts.
Import status coding segment segment_file.
Context `{Ext : Externals}.

(** The world after the two reads of [_parse_footer]. *)
Lemma parse_footer_decided (e : Env) (data : list byte) :
  files (world e) !! _path (this e) = Some data ->
  file_size data < cxx.SIZE_MOD ->
  (12 <= file_size data -> 12 + footer_length data < cxx.UINT32_MOD) ->
  (corruption_cases data
   /\ exists m w', _parse_footer e = (inl (Corruption m), mkEnv w' (this e)))
  \/ (~ corruption_cases data
      /\ exists footer,
           ParseFromString (footer_bytes data) = Some footer
           /\ _parse_footer e
              = (inr tt,
                 mkEnv (log_io (ReadAt (_path (this e))
                                  (file_size data - 12 - footer_length data)
                                  (footer_length data))
                          (consume (footer_length data)
                             (log_io (ReadAt (_path (this e)) (file_size data - 12) 12)
                                (log_io (OpenFile (_path (this e))) (world e)))))
                       (set_footer footer (this e)))).
Proof.
  intros Hfile Hsize Hlen.
  rewrite (parse_footer_unfold e data Hfile Hsize). cbv zeta.
  unfold corruption_cases.
  destruct (Z.ltb_spec (file_size data) 12) as [Hlt|Hge].
  { left. split; [now left|]. eauto. }
  specialize (Hlen Hge).
  destruct (magic_matches data) eqn:Hmagic; simpl negb; cbv iota.
  2:{ left. split; [right; now left|]. eauto. }
  pose proof (decode_fixed32_le_range (trailer data)) as Hrange.
  fold (footer_length data) in Hrange.
  assert (Hadd : cxx.add_u32 12 (footer_length data) = 12 + footer_length data).
  { unfold cxx.add_u32, cxx.u32. apply Z.mod_small. lia. }
  rewrite Hadd.
  destruct (Z.ltb_spec (file_size data) (12 + footer_length data)) as [Hshort|Hfits].
  { left. split; [right; right; now left|]. eauto. }
  rewrite (sub_size_exact (file_size data - 12) (footer_length data)) by lia.
  assert (Hin : in_file (mkFileReader (_path (this e)) data)
                        (file_size data - 12 - footer_length data) (footer_length data)
                = true).
  { unfold in_file. change (FileReader_size _) with (file_size data).
    rewrite !andb_true_iff, !Z.leb_le. lia. }
  rewrite Hin.
  rewrite (read_footer data (footer_length data)) by lia.
  fold (footer_bytes data). fold (checksum_matches data).
  destruct (checksum_matches data) eqn:Hsum; simpl negb; cbv iota.
  2:{ left. split; [right; right; right; now left|]. eauto. }
  destruct (ParseFromString (footer_bytes data)) as [footer|] eqn:Hparse.
  - right. split; [|eauto].
    intros [H|[H|[H|[H|H]]]]; try discriminate; lia.
  - left. split; [right; right; right; now right|]. eauto.
Qed.

Lemma open_unfold (w : World) (path : string) (segment_id : Z) (schema : TabletSchema) :
  let e0 := mkEnv w (Segment_new path segment_id schema) in
  open path segment_id schema w =
    match _parse_footer e0 with
    | (inl f, e1) => (inl f, Segment_destroy (world e1))
    | (inr _, e1) =>
        match _create_column_readers e1 with
        | (inl f, e2) => (inl f, Segment_destroy (world e2))
        | (inr _, e2) => (inr (set_is_open true (this e2)), world e2)
        end
    end.
Proof.
  cbv zeta. unfold open, _open, bind.
  destruct (_parse_footer _) as [[f|[]] e1]; [reflexivity|].
  destruct (_create_column_readers e1) as [[f|[]] e2]; reflexivity.
Qed.

(** C1, as amended: for a file that can be opened and read, whose footer
    length plus 12 fits [uint32_t], and column readers that can be created,
    [Segment::open] fails with Corruption in exactly five cases: the file is
    smaller than the trailer, the magic number does not match, the footer
    length exceeds what precedes the trailer, the checksum of the footer does
    not match, the footer does not parse.  In every other case it succeeds
    and the segment holds the parsed footer. *)
Theorem open_corruption_cases (w : World) (path : string) (segment_id : Z)
    (schema : TabletSchema) (data : list byte) :
  files w !! path = Some data ->
  file_size data < cxx.SIZE_MOD ->
  (12 <= file_size data -> 12 + footer_length data < cxx.UINT32_MOD) ->
  (forall opts pb n p, ok (ColumnReader_create opts pb n p) = true) ->
  (is_corruption (fst (open path segment_id schema w)) = true <-> corruption_cases data)
  /\ (is_corruption
        (fst (_parse_footer (mkEnv w (Segment_new path segment_id schema)))) = true
      <-> corruption_cases data)
  /\ (~ corruption_cases data ->
      exists seg footer,
        fst (open path segment_id schema w) = inr seg
        /\ ParseFromString (footer_bytes data) = Some footer
        /\ _footer seg = footer
        /\ _is_open seg = true).
Proof.
  intros Hfile Hsize Hlen Hcreate.
  rewrite open_unfold. cbv zeta.
  destruct (parse_footer_decided (mkEnv w (Segment_new path segment_id schema)) data
              Hfile Hsize Hlen) as [[Hbad (m & w' & Hr)]|[Hgood (footer & Hparse & Hr)]];
    simpl this in Hr; simpl world in Hr; simpl _path in Hr; rewrite Hr.
  - simpl. repeat split; try tauto.
  - edestruct (create_column_readers_ok
                 (mkEnv (log_io (ReadAt path (file_size data - 12 - footer_length data)
                                   (footer_length data))
                           (consume (footer_length data)
                              (log_io (ReadAt path (file_size data - 12) 12)
                                 (log_io (OpenFile path) w))))
                        (set_footer footer (Segment_new path segment_id schema))))
      as (readers & ordinals & Hc); [exact Hcreate|reflexivity|].
    rewrite Hc. simpl.
    split; [split; [discriminate|tauto]|].
    split; [split; [discriminate|tauto]|].
    intros _. eexists _, footer. repeat split. exact Hparse.
Qed.

(** C6: a file of fewer than 12 bytes is refused with Corruption after the
    file was opened and before any read was requested: the only request
    that [Segment::open] makes is the opening of the file.  The segment that
    [open] had built is destroyed on the way out, which releases the
    consumption of the memory tracker. *)
Theorem open_truncated_file_corruption (w : World) (path : string) (segment_id : Z)
    (schema : TabletSchema) (data : list byte) :
  files w !! path = Some data ->
  file_size data < 12 ->
  open path segment_id schema w
  = (inl (Corruption "Bad segment file {}: file size {} < 12"),
     Segment_destroy (log_io (OpenFile path) w))
  /\ io_log (snd (open path segment_id schema w)) = io_log w ++ [OpenFile path]
  /\ filter (fun ev => is_read ev = true) (io_log (snd (open path segment_id schema w)))
     = filter (fun ev => is_read ev = true) (io_log w)
  /\ files (snd (open path segment_id schema w)) = files w
  /\ mem_consumption (snd (open path segment_id schema w)) = 0.
Proof.
  intros Hfile Hsmall.
  assert (Hopen : open path segment_id schema w
                  = (inl (Corruption "Bad segment file {}: file size {} < 12"),
                     Segment_destroy (log_io (OpenFile path) w))).
  { rewrite open_unfold. cbv zeta.
    rewrite (parse_footer_unfold _ data) by (simpl; unfold cxx.SIZE_MOD; lia || exact Hfile).
    cbv zeta. simpl.
    destruct (Z.ltb_spec (file_size data) 12); [reflexivity|lia]. }
  rewrite Hopen. simpl. split; [reflexivity|]. split; [reflexivity|].
  split; [|split; [reflexivity|lia]].
  rewrite filter_app. simpl. rewrite filter_cons_False by (simpl; discriminate).
  rewrite filter_nil. apply app_nil_r.
Qed.

End OpenFacts.

(** ** The table of column readers *)

Section ReaderTable.
Import status coding segment segment_file.
Context `{Ext : Externals}.

Lemma index_footer_columns_lookup_None (cols : list ColumnMetaPB) :
  forall (ordinal : nat) (m : gmap Z nat) (k : Z),
    index_footer_columns ordinal cols m !! k = None
    <-> m !! k = None /\ k ∉ map pb_unique_id cols.
Proof.
  induction cols as [|column_pb rest IH]; intros ordinal m k; simpl.
  - split; [intros H; split; [exact H|apply not_elem_of_nil]|tauto].
  - rewrite IH, not_elem_of_cons. unfold emplace.
    destruct (m !! pb_unique_id column_pb) eqn:Hold.
    + split; [|tauto]. intros [Hk Hrest]. repeat split; auto. congruence.
    + destruct (decide (pb_unique_id column_pb = k)) as [->|Hne].
      * rewrite lookup_insert_eq. split; [intros [[=] _]|tauto].
      * rewrite lookup_insert_ne by exact Hne. split; [|tauto]. intros [? ?].
        repeat split; auto.
Qed.

(** What the loop over the schema leaves in the vector of readers: the slots
    before [ordinal] as they were, the slot of a column that the footer does
    not have as it was, and a reader in the slot of a column that the footer
    has. *)
Lemma create_readers_from_slots (cols : list TabletColumn) :
  forall (ordinal : nat) (e e' : Env),
    create_readers_from ordinal cols e = (inr tt, e') ->
    world e' = world e
    /\ this e' = set_column_readers (_column_readers (this e')) (this e)
    /\ length (_column_readers (this e')) = length (_column_readers (this e))
    /\ (forall j, (j < ordinal)%nat ->
                  _column_readers (this e') !! j = _column_readers (this e) !! j)
    /\ (forall i col, cols !! i = Some col ->
          _column_id_to_footer_ordinal (this e) !! unique_id col = None ->
          _column_readers (this e') !! (ordinal + i)%nat
          = _column_readers (this e) !! (ordinal + i)%nat)
    /\ (forall i col, cols !! i = Some col ->
          is_Some (_column_id_to_footer_ordinal (this e) !! unique_id col) ->
          (ordinal + i < length (_column_readers (this e)))%nat ->
          exists reader, _column_readers (this e') !! (ordinal + i)%nat = Some (Some reader)).
Proof.
  induction cols as [|col rest IH]; intros ordinal e e'; simpl.
  - unfold ret. intros [= <-]. destruct e as [w s]; destruct s; simpl.
    repeat split; try discriminate.
  - unfold bind at 1, get_this at 1.
    destruct (_column_id_to_footer_ordinal (this e) !! unique_id col) as [fo|] eqn:Hfo.
    + destruct (columns (_footer (this e)) !! fo) as [pb|]; [|discriminate].
      unfold bind at 1, lift at 1.
      destruct (ColumnReader_create _ _ _ _) as [f|reader]; [discriminate|].
      unfold bind at 1, modify_this at 1. intros Hrest.
      apply IH in Hrest. simpl in Hrest.
      destruct Hrest as (Hw & Hthis & Hlen & Hbefore & Habsent & Hpresent).
      rewrite length_insert in Hlen. cbn [Nat.add] in Habsent, Hpresent.
      split; [exact Hw|]. split; [rewrite Hthis at 1; reflexivity|].
      split; [exact Hlen|].
      split; [|split].
      * intros j Hj. rewrite Hbefore by lia. apply list_lookup_insert_ne. lia.
      * intros [|i] col' Hlk Hnone; simpl in Hlk.
        -- injection Hlk as <-. congruence.
        -- rewrite Nat.add_succ_r.
           rewrite (Habsent i col' Hlk Hnone). apply list_lookup_insert_ne. lia.
      * intros [|i] col' Hlk Hsome Hrange; simpl in Hlk.
        -- exists reader. rewrite Hbefore by lia. rewrite Nat.add_0_r.
           apply list_lookup_insert_eq. lia.
        -- rewrite Nat.add_succ_r.
           apply (Hpresent i col' Hlk Hsome). rewrite length_insert. lia.
    + intros Hrest. apply IH in Hrest.
      destruct Hrest as (Hw & Hthis & Hlen & Hbefore & Habsent & Hpresent).
      cbn [Nat.add] in Habsent, Hpresent.
      split; [exact Hw|]. split; [exact Hthis|]. split; [exact Hlen|].
      split; [|split].
      * intros j Hj. apply Hbefore. lia.
      * intros [|i] col' Hlk Hnone; simpl in Hlk.
        -- rewrite Nat.add_0_r. apply Hbefore. lia.
        -- rewrite Nat.add_succ_r.
           now apply (Habsent i col').
      * intros [|i] col' Hlk Hsome Hrange; simpl in Hlk.
        -- injection Hlk as <-. rewrite Hfo in Hsome. now destruct Hsome.
        -- rewrite Nat.add_succ_r.
           apply (Hpresent i col' Hlk Hsome). lia.
Qed.

Lemma open_file_unchanged (path : string) (e e' : Env) (r : Result FileReader) :
  open_file path e = (r, e') -> this e' = this e.
Proof.
  unfold open_file, bind, modify_world, get_world. simpl.
  destruct (files (world e) !! path); intros [= <- <-]; reflexivity.
Qed.

Lemma read_at_unchanged (file_reader : FileReader) (offset len : Z) (e e' : Env)
    (r : Result (list byte)) :
  read_at file_reader offset len e = (r, e') -> this e' = this e.
Proof.
  unfold read_at, bind, modify_world, ret, lift. simpl.
  destruct (in_file file_reader offset len); intros [= <- <-]; reflexivity.
Qed.

Lemma parse_footer_this (e e' : Env) :
  _parse_footer e = (inr tt, e') ->
  exists footer, this e' = set_footer footer (this e).
Proof.
  unfold _parse_footer, bind at 1, get_this at 1, bind at 1.
  destruct (open_file (_path (this e)) e) as [[f|file_reader] e0] eqn:Hopen;
    [discriminate|].
  apply open_file_unchanged in Hopen.
  destruct (FileReader_size file_reader <? 12); [discriminate|].
  unfold bind at 1.
  destruct (read_at file_reader _ 12 e0) as [[f|fixed_buf] e1] eqn:Hread1;
    [discriminate|].
  apply read_at_unchanged in Hread1.
  destruct (negb (memcmp_eq _ _ _)); [discriminate|].
  destruct (FileReader_size file_reader <? _); [discriminate|].
  unfold bind at 1, modify_world at 1, bind at 1.
  destruct (read_at file_reader _ _ _) as [[f|footer_buf] e2] eqn:Hread2;
    [discriminate|].
  apply read_at_unchanged in Hread2. simpl in Hread2.
  destruct (negb (_ =? _)); [discriminate|].
  destruct (ParseFromString footer_buf) as [footer|]; [|discriminate].
  unfold modify_this. intros [= <-]. exists footer. simpl. congruence.
Qed.

(** X4: after [Segment::open] the vector of readers has one slot per column
    of the schema; the slot is null exactly for the columns whose unique id the
    footer does not have. *)
Lemma open_reader_table (w w' : World) (path : string) (segment_id : Z)
    (schema : TabletSchema) (seg : Segment) :
  open path segment_id schema w = (inr seg, w') ->
  _is_open seg = true
  /\ _tablet_schema seg = schema
  /\ length (_column_readers seg) = length (schema_columns schema)
  /\ forall (cid : nat) (col : TabletColumn),
       schema_columns schema !! cid = Some col ->
       (_column_readers seg !! cid = Some None
        <-> unique_id col ∉ map pb_unique_id (columns (_footer seg))).
Proof.
  rewrite open_unfold. cbv zeta.
  destruct (_parse_footer _) as [[f|[]] e1] eqn:Hparse; [discriminate|].
  apply parse_footer_this in Hparse as [footer Hthis1]. simpl in Hthis1.
  unfold _create_column_readers, bind, modify_this, get_this. simpl.
  rewrite Hthis1. simpl.
  destruct (create_readers_from _ _ _) as [[f|[]] e2] eqn:Hloop; [discriminate|].
  intros [= <- <-].
  apply create_readers_from_slots in Hloop. simpl in Hloop.
  destruct Hloop as (_ & Hthis2 & Hlen & _ & Habsent & Hpresent).
  rewrite length_resize in Hlen.
  split; [reflexivity|].
  split; [rewrite Hthis2; reflexivity|].
  split; [exact Hlen|].
  intros cid col Hcol.
  assert (Hfooter : _footer (set_is_open true (this e2)) = footer)
    by (rewrite Hthis2; reflexivity).
  rewrite Hfooter. simpl _column_readers.
  pose proof (lookup_lt_Some _ _ _ Hcol) as Hcid.
  assert (Hinit : resize (length (schema_columns schema)) None
                    ([] : list (option ColumnReader)) !! cid = Some None).
  { rewrite resize_nil. now apply lookup_replicate. }
  pose proof (index_footer_columns_lookup_None (columns footer) 0 ∅ (unique_id col))
    as Hindex.
  rewrite lookup_empty in Hindex.
  destruct (index_footer_columns 0 (columns footer) ∅ !! unique_id col) as [fo|] eqn:Hfo.
  - destruct (Hpresent cid col Hcol) as [reader Hreader]; [eauto|rewrite length_resize; lia|].
    simpl in Hreader. rewrite Hreader.
    split; [discriminate|]. intros Hnot. exfalso.
    assert (Hn : (Some fo : option nat) = None) by (apply Hindex; tauto). discriminate.
  - rewrite (Habsent cid col Hcol) by exact Hfo. rewrite Hinit.
    split; [intros _; now apply Hindex|reflexivity].
Qed.

End ReaderTable.

(** ** The trailer layout *)

Section LayoutFacts.
Import status coding segment segment_file.
Context `{Ext : Externals}.

Lemma well_formed_file_split (pages footer : list byte) :
  well_formed_file pages footer
  = (pages ++ footer)
      ++ (encode_fixed32_le (Z.of_nat (length footer))
            ++ encode_fixed32_le (crc32c_Value footer) ++ k_segment_magic).
Proof. unfold well_formed_file. now rewrite <- app_assoc. Qed.

Lemma well_formed_file_length (pages footer : list byte) :
  length k_segment_magic = 4%nat ->
  length (well_formed_file pages footer) = (length (pages ++ footer) + 12)%nat.
Proof.
  intros Hm. rewrite well_formed_file_split, !length_app, !length_encode_fixed32_le, Hm.
  lia.
Qed.

Lemma well_formed_file_trailer (pages footer : list byte) :
  length k_segment_magic = 4%nat ->
  trailer (well_formed_file pages footer)
  = encode_fixed32_le (Z.of_nat (length footer))
      ++ encode_fixed32_le (crc32c_Value footer) ++ k_segment_magic.
Proof.
  intros Hm. unfold trailer. rewrite well_formed_file_length by exact Hm.
  rewrite well_formed_file_split.
  replace (length (pages ++ footer) + 12 - 12)%nat with (length (pages ++ footer)) by lia.
  apply drop_app_length.
Qed.

Lemma well_formed_file_body (pages footer : list byte) :
  length k_segment_magic = 4%nat ->
  body (well_formed_file pages footer) = pages ++ footer.
Proof.
  intros Hm. unfold body. rewrite well_formed_file_length by exact Hm.
  rewrite well_formed_file_split.
  replace (length (pages ++ footer) + 12 - 12)%nat with (length (pages ++ footer)) by lia.
  apply take_app_length.
Qed.

Lemma well_formed_file_footer_length (pages footer : list byte) :
  length k_segment_magic = 4%nat ->
  Z.of_nat (length footer) < cxx.UINT32_MOD ->
  footer_length (well_formed_file pages footer) = Z.of_nat (length footer).
Proof.
  intros Hm Hlen. unfold footer_length.
  rewrite well_formed_file_trailer by exact Hm.
  rewrite decode_encode_fixed32_le. unfold cxx.u32. apply Z.mod_small. lia.
Qed.

Lemma well_formed_file_footer_bytes (pages footer : list byte) :
  length k_segment_magic = 4%nat ->
  Z.of_nat (length footer) < cxx.UINT32_MOD ->
  footer_bytes (well_formed_file pages footer) = footer.
Proof.
  intros Hm Hlen. unfold footer_bytes.
  rewrite well_formed_file_footer_length by assumption.
  rewrite well_formed_file_body by exact Hm.
  rewrite length_app.
  replace (length pages + length footer - Z.to_nat (Z.of_nat (length footer)))%nat
    with (length pages) by lia.
  apply drop_app_length.
Qed.

Lemma well_formed_file_checksum (pages footer : list byte) :
  length k_segment_magic = 4%nat ->
  stored_checksum (well_formed_file pages footer) = cxx.u32 (crc32c_Value footer).
Proof.
  intros Hm. unfold stored_checksum.
  rewrite well_formed_file_trailer by exact Hm.
  unfold encode_fixed32_le at 1. simpl drop.
  apply decode_encode_fixed32_le.
Qed.

Lemma well_formed_file_magic (pages footer : list byte) :
  length k_segment_magic = 4%nat ->
  magic_matches (well_formed_file pages footer) = true.
Proof.
  intros Hm. unfold magic_matches.
  rewrite well_formed_file_trailer by exact Hm.
  unfold encode_fixed32_le. simpl drop.
  unfold memcmp_eq. now apply bool_decide_eq_true.
Qed.

(** C2: in a file laid out as pages, footer, little-endian footer length,
    little-endian CRC32C of the footer and magic number, the last 12 bytes
    are the trailer and the bytes just before it are the footer.  Whatever
    the size of the file, [_parse_footer] opens it and makes two requests:
    12 bytes at [file_size - 12], then [footer_length] bytes at
    [file_size - 12 - footer_length]; it hands exactly the footer to the
    parser. *)
Theorem parse_footer_two_reads (e : Env) (pages footer : list byte) :
  files (world e) !! _path (this e) = Some (well_formed_file pages footer) ->
  length k_segment_magic = 4%nat ->
  Z.of_nat (length footer) < cxx.UINT32_MOD ->
  file_size (well_formed_file pages footer) < cxx.SIZE_MOD ->
  trailer (well_formed_file pages footer)
  = encode_fixed32_le (Z.of_nat (length footer))
      ++ encode_fixed32_le (crc32c_Value footer) ++ k_segment_magic
  /\ length (trailer (well_formed_file pages footer)) = 12%nat
  /\ body (well_formed_file pages footer) = pages ++ footer
  /\ footer_bytes (well_formed_file pages footer) = footer
  /\ io_log (world (snd (_parse_footer e)))
     = io_log (world e)
         ++ two_reads (_path (this e)) (file_size (well_formed_file pages footer))
              (Z.of_nat (length footer))
  /\ fst (_parse_footer e)
     = match ParseFromString footer with
       | Some _ => OK
       | None => inl (Corruption "Bad segment file {}: failed to parse SegmentFooterPB")
       end
  /\ forall parsed, ParseFromString footer = Some parsed ->
                    _footer (this (snd (_parse_footer e))) = parsed.
Proof.
  intros Hfile Hm Hlen Hsize.
  pose proof (well_formed_file_trailer pages footer Hm) as Htrailer.
  pose proof (well_formed_file_footer_length pages footer Hm Hlen) as Hfl.
  pose proof (well_formed_file_footer_bytes pages footer Hm Hlen) as Hfb.
  pose proof (well_formed_file_length pages footer Hm) as Hlength.
  split; [exact Htrailer|].
  split; [rewrite Htrailer, !length_app, !length_encode_fixed32_le, Hm; reflexivity|].
  split; [now apply well_formed_file_body|].
  split; [exact Hfb|].
  rewrite (parse_footer_unfold e _ Hfile Hsize). cbv zeta.
  assert (Hge : 12 + Z.of_nat (length footer) <= file_size (well_formed_file pages footer)).
  { unfold file_size. rewrite Hlength, length_app. lia. }
  destruct (Z.ltb_spec (file_size (well_formed_file pages footer)) 12) as [Hlt|_]; [lia|].
  rewrite well_formed_file_magic by exact Hm. simpl negb. cbv iota.
  rewrite Hfl.
  assert (Hadd : cxx.add_u32 12 (Z.of_nat (length footer)) <= 12 + Z.of_nat (length footer)).
  { unfold cxx.add_u32, cxx.u32, cxx.UINT32_MOD. apply Z.mod_le; lia. }
  destruct (Z.ltb_spec (file_size (well_formed_file pages footer))
              (cxx.add_u32 12 (Z.of_nat (length footer)))) as [Hlt|_]; [lia|].
  rewrite (sub_size_exact (file_size (well_formed_file pages footer) - 12)
             (Z.of_nat (length footer))) by lia.
  assert (Hin : in_file (mkFileReader (_path (this e)) (well_formed_file pages footer))
                  (file_size (well_formed_file pages footer) - 12 - Z.of_nat (length footer))
                  (Z.of_nat (length footer)) = true).
  { unfold in_file. change (FileReader_size _) with (file_size (well_formed_file pages footer)).
    rewrite !andb_true_iff, !Z.leb_le. lia. }
  rewrite Hin.
  rewrite (read_footer _ (Z.of_nat (length footer))) by lia.
  assert (Hdrop : drop (length (body (well_formed_file pages footer))
                        - Z.to_nat (Z.of_nat (length footer)))
                     (body (well_formed_file pages footer)) = footer).
  { pose proof Hfb as Hfb'. unfold footer_bytes in Hfb'. now rewrite Hfl in Hfb'. }
  rewrite !Hdrop.
  rewrite well_formed_file_checksum by exact Hm.
  rewrite Z.eqb_refl. simpl negb. cbv iota.
  unfold two_reads.
  destruct (ParseFromString footer) as [parsed|]; simpl.
  - repeat split.
    + now rewrite <- !app_assoc.
    + now intros ? [= <-].
  - repeat split.
    + now rewrite <- !app_assoc.
    + discriminate.
Qed.

(** C9 fails on the code: [12 + footer_length] is computed in [uint32_t].
    For a footer length of at least 2^32 - 12 the sum wraps below 12, the
    size check passes although the footer length exceeds the file, and the
    function goes on to request the footer at an offset outside the file. *)
Theorem parse_footer_length_wraps (e : Env) (data : list byte) :
  files (world e) !! _path (this e) = Some data ->
  12 <= file_size data < cxx.SIZE_MOD ->
  magic_matches data = true ->
  cxx.UINT32_MOD - 12 <= footer_length data ->
  file_size data < 12 + footer_length data ->
  let offset := file_size data - 12 - footer_length data + cxx.SIZE_MOD in
  file_size data < offset
  /\ in_file (mkFileReader (_path (this e)) data) offset (footer_length data) = false
  /\ io_log (world (snd (_parse_footer e)))
     = io_log (world e)
         ++ [OpenFile (_path (this e));
             ReadAt (_path (this e)) (file_size data - 12) 12;
             ReadAt (_path (this e)) offset (footer_length data)]
  /\ forall f, read_outside data offset (footer_length data) = inl f ->
               fst (_parse_footer e) = inl f.
Proof.
  intros Hfile [Hge Hsize] Hmagic Hwrap Hshort. cbv zeta.
  pose proof (decode_fixed32_le_range (trailer data)) as Hrange.
  fold (footer_length data) in Hrange.
  assert (Hoff : cxx.sub_size (file_size data - 12) (footer_length data)
                 = file_size data - 12 - footer_length data + cxx.SIZE_MOD).
  { unfold cxx.sub_size, cxx.usize. symmetry.
    apply Zmod_unique with (q := -1); unfold cxx.SIZE_MOD, cxx.UINT32_MOD in *; lia. }
  assert (Hadd : cxx.add_u32 12 (footer_length data) < 12).
  { assert (Hw : cxx.add_u32 12 (footer_length data)
                 = 12 + footer_length data - cxx.UINT32_MOD).
    { unfold cxx.add_u32, cxx.u32. symmetry.
      apply Zmod_unique with (q := 1); unfold cxx.UINT32_MOD in *; lia. }
    rewrite Hw. unfold cxx.UINT32_MOD in *. lia. }
  assert (Hout : in_file (mkFileReader (_path (this e)) data)
                   (file_size data - 12 - footer_length data + cxx.SIZE_MOD)
                   (footer_length data) = false).
  { unfold in_file. change (FileReader_size _) with (file_size data).
    apply andb_false_iff. right. apply Z.leb_gt.
    unfold cxx.SIZE_MOD, cxx.UINT32_MOD in *. lia. }
  split; [unfold cxx.SIZE_MOD, cxx.UINT32_MOD in *; lia|].
  split; [exact Hout|].
  rewrite (parse_footer_unfold e data Hfile Hsize). cbv zeta.
  destruct (Z.ltb_spec (file_size data) 12) as [Hlt|_]; [lia|].
  rewrite Hmagic. simpl negb. cbv iota.
  destruct (Z.ltb_spec (file_size data) (cxx.add_u32 12 (footer_length data)))
    as [Hlt|_]; [lia|].
  rewrite Hoff, Hout.
  assert (Hlog : forall st (env' : Env),
            world env'
            = log_io (ReadAt (_path (this e))
                        (file_size data - 12 - footer_length data + cxx.SIZE_MOD)
                        (footer_length data))
                (consume (footer_length data)
                   (log_io (ReadAt (_path (this e)) (file_size data - 12) 12)
                      (log_io (OpenFile (_path (this e))) (world e)))) ->
            io_log (world (snd (st : Status, env')))
            = io_log (world e)
                ++ [OpenFile (_path (this e));
                    ReadAt (_path (this e)) (file_size data - 12) 12;
                    ReadAt (_path (this e))
                      (file_size data - 12 - footer_length data + cxx.SIZE_MOD)
                      (footer_length data)]).
  { intros st env' Hw. simpl. rewrite Hw. simpl. now rewrite <- !app_assoc. }
  destruct (read_outside data _ (footer_length data)) as [f|footer_buf].
  - split; [now apply Hlog|]. now intros ? [= <-].
  - split; [|discriminate].
    destruct (negb _); [now apply Hlog|].
    destruct (ParseFromString footer_buf); now apply Hlog.
Qed.

End LayoutFacts.

(** ** Concrete files *)

Section ConcreteFiles.
Import status coding segment segment_file sample.

#[local] Ltac compute_prop :=
  vm_compute;
  first [ reflexivity | discriminate | (intro; discriminate) ].

Lemma open_corruption_cases_witness :
  ~ corruption_cases good_file
  /\ (is_corruption (fst (open "segment" 7 two_columns (one_file "segment" good_file))) = true
      <-> corruption_cases good_file).
Proof.
  assert (H1 : files (one_file "segment" good_file) !! "segment"%string = Some good_file)
    by (apply lookup_singleton_eq).
  assert (H2 : file_size good_file < cxx.SIZE_MOD) by compute_prop.
  assert (H3 : 12 <= file_size good_file -> 12 + footer_length good_file < cxx.UINT32_MOD)
    by (intros _; compute_prop).
  assert (H4 : forall opts pb n p, ok (ColumnReader_create opts pb n p) = true)
    by reflexivity.
  split.
  - intros [H|[H|[H|[H|H]]]]; vm_compute in H; discriminate H.
  - exact (proj1 (open_corruption_cases (one_file "segment" good_file) "segment" 7
                    two_columns good_file H1 H2 H3 H4)).
Defined.

(** C1, as stated, fails: the file is not smaller than the trailer, its magic
    number matches, the stored checksum is the CRC32C of the (empty) bytes
    before the trailer, and these parse; [open] still answers Corruption,
    because the trailer announces a footer of one byte. *)
Lemma open_corruption_outside_stated_cases :
  is_corruption (fst (open "segment" 7 two_columns (one_file "segment" short_file))) = true
  /\ ~ stated_corruption_cases short_file.
Proof.
  split; [vm_compute; reflexivity|].
  intros [H|[H|[H|H]]]; vm_compute in H; discriminate H.
Qed.

Lemma parse_footer_two_reads_witness :
  file_size good_file = 17
  /\ io_log (world (snd (_parse_footer
                           (mkEnv (one_file "segment" good_file)
                                  (Segment_new "segment" 7 two_columns)))))
     = [OpenFile "segment"; ReadAt "segment" 5 12; ReadAt "segment" 3 2].
Proof.
  assert (H1 : files (world (mkEnv (one_file "segment" good_file)
                                   (Segment_new "segment" 7 two_columns)))
                 !! _path (this (mkEnv (one_file "segment" good_file)
                                       (Segment_new "segment" 7 two_columns)))
               = Some (well_formed_file [x00; x00; x00] [x01; x02]))
    by (apply lookup_singleton_eq).
  assert (H2 : length k_segment_magic = 4%nat) by reflexivity.
  assert (H3 : Z.of_nat (length [x01; x02]) < cxx.UINT32_MOD) by compute_prop.
  assert (H4 : file_size (well_formed_file [x00; x00; x00] [x01; x02]) < cxx.SIZE_MOD)
    by compute_prop.
  split; [reflexivity|].
  exact (proj1 (proj2 (proj2 (proj2 (proj2
           (parse_footer_two_reads _ [x00; x00; x00] [x01; x02] H1 H2 H3 H4)))))).
Defined.

(** The file truncated to 8 bytes, opened while the tracker stands at 5. *)
Lemma open_truncated_file_corruption_witness :
  length truncated_file = 8%nat
  /\ open "segment" 7 two_columns
       (mkWorld {[ "segment"%string := truncated_file ]} [] 5 empty_stats)
     = (inl (Corruption "Bad segment file {}: file size {} < 12"),
        mkWorld {[ "segment"%string := truncated_file ]} [OpenFile "segment"] 0
          empty_stats).
Proof.
  assert (H1 : files (mkWorld {[ "segment"%string := truncated_file ]} [] 5 empty_stats)
                 !! "segment"%string
               = Some truncated_file)
    by (apply lookup_singleton_eq).
  assert (H2 : file_size truncated_file < 12) by compute_prop.
  split; [reflexivity|].
  exact (proj1 (open_truncated_file_corruption
                  (mkWorld {[ "segment"%string := truncated_file ]} [] 5 empty_stats)
                  "segment" 7 two_columns truncated_file H1 H2)).
Defined.

Lemma parse_footer_length_wraps_witness :
  file_size wrapping_file < 12 + footer_length wrapping_file
  /\ io_log (world (snd (_parse_footer
                           (mkEnv (one_file "segment" wrapping_file)
                                  (Segment_new "segment" 7 two_columns)))))
     = [OpenFile "segment"; ReadAt "segment" 0 12;
        ReadAt "segment" 18446744069414584321 4294967295].
Proof.
  assert (H1 : files (world (mkEnv (one_file "segment" wrapping_file)
                                   (Segment_new "segment" 7 two_columns)))
                 !! _path (this (mkEnv (one_file "segment" wrapping_file)
                                       (Segment_new "segment" 7 two_columns)))
               = Some wrapping_file)
    by (apply lookup_singleton_eq).
  assert (H2 : 12 <= file_size wrapping_file < cxx.SIZE_MOD) by (split; compute_prop).
  assert (H3 : magic_matches wrapping_file = true) by compute_prop.
  assert (H4 : cxx.UINT32_MOD - 12 <= footer_length wrapping_file) by compute_prop.
  assert (H5 : file_size wrapping_file < 12 + footer_length wrapping_file) by compute_prop.
  split; [exact H5|].
  exact (proj1 (proj2 (proj2
           (parse_footer_length_wraps _ wrapping_file H1 H2 H3 H4 H5)))).
Defined.

End ConcreteFiles.

(** ** Column iterators *)

Section ColumnIteratorFacts.
Import status coding segment.
Context `{Ext : Externals}.

(** [new_column_iterator] on a column that has no reader, statement by
    statement. *)
Lemma new_column_iterator_absent_unfold (e : Env) (cid : Z) (col : TabletColumn) :
  vector_at (_column_readers (this e)) cid = Some None ->
  column (_tablet_schema (this e)) cid = Some col ->
  new_column_iterator cid e =
    if negb (has_default_value col) && negb (is_nullable col) then
      (inl (InternalError "invalid nonexistent column without default value."), e)
    else
      match DefaultValueColumnIterator_init
              (mkDefaultValueColumnIterator (has_default_value col) (default_value col)
                 (is_nullable col) (get_type_info col) (column_length col)) with
      | inl f => (inl f, e)
      | inr _ =>
          (inr (DefaultValueIter
                  (mkDefaultValueColumnIterator (has_default_value col) (default_value col)
                     (is_nullable col) (get_type_info col) (column_length col))), e)
      end.
Proof.
  intros Hreader Hcol. unfold new_column_iterator, bind, get_this.
  rewrite Hreader, Hcol.
  destruct (negb (has_default_value col) && negb (is_nullable col)); [reflexivity|].
  unfold lift. destruct (DefaultValueColumnIterator_init _); reflexivity.
Qed.

(** C3, as amended: for a column that has no reader in the segment,
    [new_column_iterator] answers the InternalError of its guard when the
    column has neither a default value nor nullability.  Otherwise it builds
    a [DefaultValueColumnIterator] from the column's default value,
    nullability, type and length and initialises it: it succeeds with that
    iterator when the initialisation succeeds and returns the failure of the
    initialisation when it fails.  So, provided the initialisation does not
    itself fail with an InternalError, the answer is an InternalError
    exactly when the column has neither a default value nor nullability.
    The segment and the world are left as they were. *)
Theorem new_column_iterator_absent_column (e : Env) (cid : Z) (col : TabletColumn) :
  let default_value_iter :=
    mkDefaultValueColumnIterator (has_default_value col) (default_value col)
      (is_nullable col) (get_type_info col) (column_length col) in
  vector_at (_column_readers (this e)) cid = Some None ->
  column (_tablet_schema (this e)) cid = Some col ->
  snd (new_column_iterator cid e) = e
  /\ (has_default_value col = false /\ is_nullable col = false ->
      fst (new_column_iterator cid e)
      = inl (InternalError "invalid nonexistent column without default value."))
  /\ (has_default_value col = true \/ is_nullable col = true ->
      fst (new_column_iterator cid e)
      = match DefaultValueColumnIterator_init default_value_iter with
        | inr _ => inr (DefaultValueIter default_value_iter)
        | inl f => inl f
        end)
  /\ (DefaultValueColumnIterator_init default_value_iter = OK ->
      has_default_value col = true \/ is_nullable col = true ->
      fst (new_column_iterator cid e) = inr (DefaultValueIter default_value_iter))
  /\ ((has_default_value col = true \/ is_nullable col = true ->
       is_internal_error (DefaultValueColumnIterator_init default_value_iter) = false) ->
      (is_internal_error (fst (new_column_iterator cid e)) = true
       <-> has_default_value col = false /\ is_nullable col = false)).
Proof.
  intros default_value_iter Hreader Hcol.
  rewrite (new_column_iterator_absent_unfold e cid col Hreader Hcol).
  fold default_value_iter.
  destruct (has_default_value col) eqn:Hd, (is_nullable col) eqn:Hn; simpl.
  4: { split; [reflexivity|]. split; [reflexivity|].
       split; [intros [?|?]; discriminate|].
       split; [intros _ [?|?]; discriminate|].
       intros _. split; [tauto|reflexivity]. }
  all: destruct (DefaultValueColumnIterator_init default_value_iter) as [f|[]] eqn:Hinit;
    simpl.
  all: split; [reflexivity|].
  all: split; [intros [? ?]; discriminate|].
  all: split; [reflexivity|].
  all: split; [intros Hok _; first [reflexivity|discriminate Hok]|].
  all: intros Hnot; split; [intros Hie|intros [? ?]; discriminate].
  all: try discriminate Hie.
  all: assert (Hfalse : is_internal_error (inl f : Status) = false) by (apply Hnot; auto).
  all: simpl in Hfalse; congruence.
Qed.

End ColumnIteratorFacts.

(** ** Row iterators *)

Section RowIteratorFacts.
Import status coding segment.
Context `{Ext : Externals}.

Lemma prune_by_zone_map_total (column_readers : list (option ColumnReader))
    (conds : list (Z * CondColumn)) :
  conditions_in_range column_readers conds ->
  exists b, prune_by_zone_map column_readers conds = inr b.
Proof.
  induction conds as [|[column_id cond] rest IH]; intros Hrange; simpl.
  - eauto.
  - destruct (Hrange column_id cond (or_introl eq_refl)) as [r Hr]. rewrite Hr.
    assert (Hrest : conditions_in_range column_readers rest).
    { intros c' cond' Hin. apply (Hrange c' cond'). now right. }
    destruct r as [reader|]; [|now apply IH].
    destruct (has_zone_map reader); simpl; [|now apply IH].
    destruct (match_condition reader cond); simpl; [now apply IH|eauto].
Qed.

Lemma prune_by_zone_map_true (column_readers : list (option ColumnReader))
    (conds : list (Z * CondColumn)) :
  conditions_in_range column_readers conds ->
  prune_by_zone_map column_readers conds = inr true
  <-> some_condition_fails column_readers conds.
Proof.
  unfold some_condition_fails.
  induction conds as [|[column_id cond] rest IH]; intros Hrange; simpl.
  - split; [discriminate|]. intros (? & ? & ? & [] & _).
  - assert (Hrest : conditions_in_range column_readers rest).
    { intros c' cond' Hin. apply (Hrange c' cond'). now right. }
    specialize (IH Hrest).
    destruct (Hrange column_id cond (or_introl eq_refl)) as [r Hr]. rewrite Hr.
    assert (Hskip : (exists c' cond' reader',
                       ((column_id, cond) = (c', cond') \/ In (c', cond') rest)
                       /\ vector_at column_readers c' = Some (Some reader')
                       /\ has_zone_map reader' = true
                       /\ match_condition reader' cond' = false)
                    <-> (match r with
                         | Some reader =>
                             has_zone_map reader = true
                             /\ match_condition reader cond = false
                         | None => False
                         end
                         \/ exists c' cond' reader',
                              In (c', cond') rest
                              /\ vector_at column_readers c' = Some (Some reader')
                              /\ has_zone_map reader' = true
                              /\ match_condition reader' cond' = false)).
    { split.
      - intros (c' & cond' & reader' & [Heq|Hin] & Hv & Hz & Hm).
        + injection Heq as <- <-. rewrite Hr in Hv. injection Hv as ->. now left.
        + right. eauto 10.
      - intros [Hhere|(c' & cond' & reader' & Hin & Hrest')].
        + destruct r as [reader|]; [|contradiction].
          exists column_id, cond, reader. tauto.
        + exists c', cond', reader'. tauto. }
    rewrite Hskip. rewrite <- IH. clear Hskip IH.
    destruct r as [reader|]; [|tauto].
    destruct (has_zone_map reader); simpl.
    + destruct (match_condition reader cond); simpl.
      * split; [tauto|]. intros [[_ H]|H]; [discriminate|exact H].
      * tauto.
    + split; [tauto|]. intros [[H _]|H]; [discriminate|exact H].
Qed.

(** What [_load_index] leaves alone. *)
Lemma load_index_frame (e : Env) :
  stats (world (snd (_load_index e))) = stats (world e)
  /\ files (world (snd (_load_index e))) = files (world e)
  /\ _segment_id (this (snd (_load_index e))) = _segment_id (this e)
  /\ _footer (this (snd (_load_index e))) = _footer (this e)
  /\ _column_readers (this (snd (_load_index e))) = _column_readers (this e)
  /\ _is_open (this (snd (_load_index e))) = _is_open (this e).
Proof.
  unfold _load_index, call.
  destruct (_has_called (_load_index_once (this e))); [repeat split|].
  unfold load_index_fn, bind, get_this, open_file, bind, modify_world, get_world,
    read_page, bind, modify_world, lift, modify_this, ret, fail.
  simpl.
  destruct (files (world e) !! _path (this e)); [|repeat split].
  destruct (read_and_decompress_page _ _) as [f|[[handle page_body] footer]];
    [repeat split|].
  simpl.
  destruct (ShortKeyIndexDecoder_parse _ _); repeat split.
Qed.

End RowIteratorFacts.

(** ** Loading the short key index once *)

Section LoadIndexFacts.
Import status coding segment load_index_threads.
Context `{Ext : Externals}.

Lemma load_index_called (e : Env) :
  _has_called (_load_index_once (this e)) = true ->
  _load_index e = (_status (_load_index_once (this e)), e).
Proof. intros H. unfold _load_index, call. now rewrite H. Qed.

Lemma load_index_first (e : Env) :
  _has_called (_load_index_once (this e)) = false ->
  _load_index e = finish_open e.
Proof.
  intros H. unfold _load_index, call. rewrite H.
  unfold finish_open, finish_read, finish_parse, fn_step, publish.
  unfold load_index_fn, bind at 1, get_this at 1, bind at 1.
  destruct (open_file (_path (this e)) e) as [[f|file_reader] e1] eqn:Hopen;
    [reflexivity|].
  assert (Hthis : this e1 = this e).
  { revert Hopen. unfold open_file, bind, modify_world, get_world. simpl.
    destruct (files (world e) !! _path (this e)); intros [= <-]; subst; reflexivity
      || (intros; discriminate). }
  rewrite <- Hthis.
  unfold bind at 1.
  destruct (read_page file_reader (short_key_index_page (_footer (this e1))) e1)
    as [[f|[[handle page_body] footer]] e2]; [reflexivity|].
  unfold bind, modify_this, modify_world, lift. simpl.
  destruct (ShortKeyIndexDecoder_parse page_body (short_key_page_footer footer));
    reflexivity.
Qed.

(** A second call returns the status of the first and changes nothing, so it
    makes no request to the file system. *)
Lemma load_index_idempotent (e : Env) :
  _load_index (snd (_load_index e)) = (fst (_load_index e), snd (_load_index e)).
Proof.
  destruct (_has_called (_load_index_once (this e))) eqn:Hcalled.
  - rewrite (load_index_called e Hcalled). simpl. now apply load_index_called.
  - unfold _load_index at 2 3 4, call. rewrite Hcalled.
    destruct (load_index_fn e) as [st e1]. simpl.
    now rewrite load_index_called by reflexivity.
Qed.

End LoadIndexFacts.

(** ** Threads calling [_load_index] *)

Section ThreadFacts.
Import status coding segment load_index_threads.
Context `{Ext : Externals}.

(** A step inside the function keeps the thread inside the work, leaves the
    cell alone and does not change what the work will amount to. *)
Lemma fn_step_inside (pc pc' : Pc) (e e' : Env) :
  fn_step pc e = Some (pc', e') ->
  working pc' = true
  /\ finish pc' e' = finish pc e
  /\ _load_index_once (this e') = _load_index_once (this e)
  /\ (steps_left pc' < steps_left pc)%nat.
Proof.
  destruct pc as [| |file_reader|page_body footer| |]; simpl; try discriminate.
  - unfold finish_open. simpl.
    destruct (open_file (_path (this e)) e) as [[f|file_reader] e1] eqn:Hopen;
      intros [= <- <-]; simpl; rewrite (open_file_unchanged _ _ _ _ Hopen);
      repeat split; lia.
  - unfold finish_read. simpl. unfold read_page, bind, modify_world, lift. simpl.
    destruct (read_and_decompress_page _ _) as [f|[[handle body] footer]];
      intros [= <- <-]; simpl; repeat split; lia.
  - unfold finish_parse. simpl.
    destruct (ShortKeyIndexDecoder_parse _ _) as [f|index];
      intros [= <- <-]; simpl; repeat split; lia.
Qed.

Lemma fn_step_enabled (pc : Pc) (e : Env) :
  working pc = true -> (forall st, pc <> AtPublish st) -> is_Some (fn_step pc e).
Proof.
  destruct pc as [| |file_reader|page_body footer|st|]; simpl working;
    try discriminate; intros _ Hnp.
  - unfold fn_step. destruct (open_file _ _) as [[f|r] e1]; eauto.
  - unfold fn_step. destruct (read_page _ _ _) as [[f|[[handle body] footer]] e1]; eauto.
  - unfold fn_step. destruct (ShortKeyIndexDecoder_parse _ _); eauto.
  - now destruct (Hnp st).
Qed.

Lemma phase_initial (e0 : Env) (n : nat) : Phase e0 n (initial n e0).
Proof.
  destruct (_has_called (_load_index_once (this e0))) eqn:Hcalled.
  - apply Done; simpl; rewrite ?(load_index_called e0 Hcalled); simpl; auto.
    apply Forall_replicate. now left.
  - now apply Idle.
Qed.

Lemma phase_step (e0 : Env) (n t : nat) (c c' : Config) :
  Phase e0 n c -> thread_step t c = Some c' -> Phase e0 n c'.
Proof.
  intros HP Hstep. unfold thread_step in Hstep.
  destruct HP as [Hfresh Henv Hholder Hthreads
                 |t0 pc0 Hcalled Hholder Hlt Hthreads Hwork Hfinish
                 |Hcalled Hstatus Henv Hall].
  - (* nobody has entered *)
    rewrite Hthreads in Hstep.
    destruct (replicate n Calling !! t) as [pc|] eqn:Hlk; [|discriminate].
    apply lookup_replicate in Hlk as [-> Hlt].
    rewrite Henv, Hfresh, Hholder in Hstep. injection Hstep as <-.
    apply (InFlight e0 n _ t AtOpenFile); simpl; auto.
    symmetry. now apply load_index_first.
  - (* one thread is at work *)
    destruct (decide (t = t0)) as [->|Hne].
    + rewrite Hthreads in Hstep.
      rewrite list_lookup_insert_eq in Hstep by now rewrite length_replicate.
      destruct pc0 as [| |file_reader|page_body footer|st|]; try discriminate Hwork.
      * destruct (fn_step AtOpenFile (env c)) as [[pc' e']|] eqn:Hfn; [|discriminate].
        injection Hstep as <-.
        destruct (fn_step_inside _ _ _ _ Hfn) as (Hw & Hf & Ho & _).
        apply (InFlight e0 n _ t0 pc'); simpl; auto.
        -- now rewrite Ho.
        -- now rewrite list_insert_insert_eq.
        -- now rewrite Hf.
      * destruct (fn_step (AtReadPage file_reader) (env c)) as [[pc' e']|] eqn:Hfn;
          [|discriminate].
        injection Hstep as <-.
        destruct (fn_step_inside _ _ _ _ Hfn) as (Hw & Hf & Ho & _).
        apply (InFlight e0 n _ t0 pc'); simpl; auto.
        -- now rewrite Ho.
        -- now rewrite list_insert_insert_eq.
        -- now rewrite Hf.
      * destruct (fn_step (AtParse page_body footer) (env c)) as [[pc' e']|] eqn:Hfn;
          [|discriminate].
        injection Hstep as <-.
        destruct (fn_step_inside _ _ _ _ Hfn) as (Hw & Hf & Ho & _).
        apply (InFlight e0 n _ t0 pc'); simpl; auto.
        -- now rewrite Ho.
        -- now rewrite list_insert_insert_eq.
        -- now rewrite Hf.
      * injection Hstep as <-. simpl in Hfinish.
        apply Done; simpl.
        -- reflexivity.
        -- now rewrite <- Hfinish.
        -- now rewrite <- Hfinish.
        -- rewrite list_insert_insert_eq. rewrite <- Hfinish. simpl.
           apply Forall_insert; [|now right].
           apply Forall_replicate. now left.
    + rewrite Hthreads in Hstep.
      rewrite list_lookup_insert_ne in Hstep by congruence.
      destruct (replicate n Calling !! t) as [pc|] eqn:Hlk; [|discriminate].
      apply lookup_replicate in Hlk as [-> _].
      rewrite Hcalled, Hholder in Hstep. discriminate.
  - (* the status is published *)
    destruct (threads c !! t) as [pc|] eqn:Hlk; [|discriminate].
    pose proof (proj1 (Forall_lookup _ _) Hall _ _ Hlk) as [->| ->]; [|discriminate].
    rewrite Hcalled in Hstep. injection Hstep as <-.
    apply Done; simpl; auto.
    apply Forall_insert; [exact Hall|]. right. now rewrite Hstatus.
Qed.

Lemma phase_run (e0 : Env) (n : nat) (schedule : list nat) :
  forall c, Phase e0 n c -> Phase e0 n (run schedule c).
Proof.
  induction schedule as [|t rest IH]; intros c HP; simpl; [exact HP|].
  apply IH. destruct (thread_step t c) as [c'|] eqn:Hstep; simpl; [|exact HP].
  eapply phase_step; eauto.
Qed.

End ThreadFacts.

Section ThreadConsequences.
Import status coding segment load_index_threads.
Context `{Ext : Externals}.

Lemma open_file_log (path : string) (e : Env) :
  io_log (world (snd (open_file path e))) = io_log (world e) ++ [OpenFile path].
Proof.
  unfold open_file, bind, modify_world, get_world. simpl.
  destruct (files (world e) !! path); reflexivity.
Qed.

(** The work only adds requests after those already made. *)
Lemma finish_log (pc : Pc) (e : Env) :
  io_log (world e) `prefix_of` io_log (world (snd (finish pc e))).
Proof.
  assert (Hparse : forall page_body footer e1,
            io_log (world (snd (finish_parse page_body footer e1))) = io_log (world e1)).
  { intros page_body footer e1. unfold finish_parse, fn_step.
    destruct (ShortKeyIndexDecoder_parse _ _); reflexivity. }
  assert (Hread : forall file_reader e1,
            io_log (world (snd (finish_read file_reader e1)))
            = io_log (world e1)
                ++ [ReadPage (fr_path file_reader)
                      (short_key_index_page (_footer (this e1)))]).
  { intros file_reader e1. unfold finish_read, fn_step, read_page, bind, modify_world, lift.
    simpl. destruct (read_and_decompress_page _ _) as [f|[[handle page_body] footer]];
      [reflexivity|].
    now rewrite Hparse. }
  destruct pc as [| |file_reader|page_body footer|st|]; simpl.
  - reflexivity.
  - unfold finish_open, fn_step.
    pose proof (open_file_log (_path (this e)) e) as Hlog.
    destruct (open_file (_path (this e)) e) as [[f|file_reader] e1]; simpl in *.
    + rewrite Hlog. now apply prefix_app_r.
    + rewrite Hread, Hlog, <- app_assoc. now apply prefix_app_r.
  - rewrite Hread. now apply prefix_app_r.
  - now rewrite Hparse.
  - reflexivity.
  - reflexivity.
Qed.

(** One call of [_load_index] opens the file at most once and reads at most
    one page. *)
Lemma load_index_log_bound (e : Env) :
  io_log (world (snd (_load_index e)))
  `prefix_of` io_log (world e)
                ++ [OpenFile (_path (this e));
                    ReadPage (_path (this e)) (short_key_index_page (_footer (this e)))].
Proof.
  destruct (_has_called (_load_index_once (this e))) eqn:Hcalled.
  - rewrite (load_index_called e Hcalled). simpl. now apply prefix_app_r.
  - rewrite (load_index_first e Hcalled).
    unfold finish_open, finish_read, fn_step, read_page, bind, modify_world, lift.
    unfold open_file, bind, modify_world, get_world. simpl.
    destruct (files (world e) !! _path (this e)); simpl.
    + destruct (read_and_decompress_page _ _) as [f|[[handle page_body] footer]]; simpl.
      * now rewrite <- app_assoc.
      * unfold finish_parse, fn_step.
        destruct (ShortKeyIndexDecoder_parse _ _); simpl; now rewrite <- app_assoc.
    + apply prefix_app. now exists [ReadPage (_path (this e))
                                      (short_key_index_page (_footer (this e)))].
Qed.

Lemma phase_returned (e0 : Env) (n : nat) (c : Config) (t : nat) (st : Status) :
  Phase e0 n c ->
  threads c !! t = Some (Returned st) ->
  st = fst (_load_index e0) /\ env c = snd (_load_index e0).
Proof.
  intros [Hfresh Henv Hholder Hthreads
         |t0 pc0 Hcalled Hholder Hlt Hthreads Hwork Hfinish
         |Hcalled Hstatus Henv Hall] Hlk.
  - rewrite Hthreads in Hlk. apply lookup_replicate in Hlk as [[=] _].
  - rewrite Hthreads in Hlk. destruct (decide (t = t0)) as [->|Hne].
    + rewrite list_lookup_insert_eq in Hlk by now rewrite length_replicate.
      injection Hlk as ->. discriminate.
    + rewrite list_lookup_insert_ne in Hlk by congruence.
      apply lookup_replicate in Hlk as [[=] _].
  - split; [|exact Henv].
    destruct (proj1 (Forall_lookup _ _) Hall _ _ Hlk) as [[=]|[= ->]]. reflexivity.
Qed.

Lemma phase_log (e0 : Env) (n : nat) (c : Config) :
  Phase e0 n c ->
  io_log (world (env c)) `prefix_of` io_log (world (snd (_load_index e0))).
Proof.
  intros [Hfresh Henv Hholder Hthreads
         |t0 pc0 Hcalled Hholder Hlt Hthreads Hwork Hfinish
         |Hcalled Hstatus Henv Hall].
  - rewrite Henv, (load_index_first e0 Hfresh). apply (finish_log AtOpenFile).
  - rewrite <- Hfinish. apply finish_log.
  - now rewrite Henv.
Qed.

(** While a thread has not returned, some thread can move. *)
Lemma phase_enabled (e0 : Env) (n : nat) (c : Config) (t : nat) (pc : Pc) :
  Phase e0 n c ->
  threads c !! t = Some pc ->
  has_returned pc = false ->
  exists t', is_Some (thread_step t' c).
Proof.
  intros [Hfresh Henv Hholder Hthreads
         |t0 pc0 Hcalled Hholder Hlt Hthreads Hwork Hfinish
         |Hcalled Hstatus Henv Hall] Hlk Hnot.
  - exists t. unfold thread_step. rewrite Hlk.
    rewrite Hthreads in Hlk. apply lookup_replicate in Hlk as [-> _].
    rewrite Henv, Hfresh, Hholder. eauto.
  - exists t0. unfold thread_step.
    assert (Hlk0 : threads c !! t0 = Some pc0).
    { rewrite Hthreads. apply list_lookup_insert_eq. now rewrite length_replicate. }
    rewrite Hlk0.
    destruct pc0 as [| |file_reader|page_body footer|st|]; try discriminate Hwork.
    + destruct (fn_step_enabled AtOpenFile (env c) eq_refl) as [[pc' e'] ->];
        [discriminate|eauto].
    + destruct (fn_step_enabled (AtReadPage file_reader) (env c) eq_refl) as [[pc' e'] ->];
        [discriminate|eauto].
    + destruct (fn_step_enabled (AtParse page_body footer) (env c) eq_refl)
        as [[pc' e'] ->]; [discriminate|eauto].
    + eauto.
  - exists t. unfold thread_step. rewrite Hlk.
    destruct (proj1 (Forall_lookup _ _) Hall _ _ Hlk) as [->| ->]; [|discriminate].
    rewrite Hcalled. eauto.
Qed.

Lemma steps_left_insert (l : list Pc) (t : nat) (pc pc' : Pc) :
  l !! t = Some pc ->
  (foldr (fun p k => steps_left p + k) 0 (<[t := pc']> l) + steps_left pc
   = foldr (fun p k => steps_left p + k) 0 l + steps_left pc')%nat.
Proof.
  revert t. induction l as [|x l IH]; intros t Hlk; [discriminate|].
  destruct t as [|t]; simpl in *.
  - injection Hlk as ->. lia.
  - specialize (IH t Hlk). lia.
Qed.

Lemma thread_step_decreases (t : nat) (c c' : Config) :
  thread_step t c = Some c' -> (all_steps_left c' < all_steps_left c)%nat.
Proof.
  unfold thread_step, all_steps_left.
  destruct (threads c !! t) as [pc|] eqn:Hlk; [|discriminate].
  assert (Hgen : forall pc' e' h,
            (steps_left pc' < steps_left pc)%nat ->
            (foldr (fun p k => steps_left p + k) 0
                   (threads (mkConfig e' h (<[t := pc']> (threads c))))
             < foldr (fun p k => steps_left p + k) 0 (threads c))%nat).
  { intros pc' e' h Hless. simpl.
    pose proof (steps_left_insert (threads c) t pc pc' Hlk). lia. }
  destruct pc as [| |file_reader|page_body footer|st|st].
  - destruct (_has_called _).
    + intros [= <-]. apply Hgen. simpl. lia.
    + destruct (holder c); [discriminate|]. intros [= <-]. apply Hgen. simpl. lia.
  - destruct (fn_step AtOpenFile (env c)) as [[pc' e']|] eqn:Hfn; [|discriminate].
    intros [= <-]. apply Hgen. now apply (fn_step_inside _ _ _ _ Hfn).
  - destruct (fn_step (AtReadPage file_reader) (env c)) as [[pc' e']|] eqn:Hfn;
      [|discriminate].
    intros [= <-]. apply Hgen. now apply (fn_step_inside _ _ _ _ Hfn).
  - destruct (fn_step (AtParse page_body footer) (env c)) as [[pc' e']|] eqn:Hfn;
      [|discriminate].
    intros [= <-]. apply Hgen. now apply (fn_step_inside _ _ _ _ Hfn).
  - intros [= <-]. apply Hgen. simpl. lia.
  - discriminate.
Qed.

(** From every configuration of a run the scheduler can bring every thread
    to its return. *)
Lemma phase_all_return (e0 : Env) (n : nat) (fuel : nat) :
  forall c,
    (all_steps_left c <= fuel)%nat ->
    Phase e0 n c ->
    exists rest, Forall (fun pc => has_returned pc = true) (threads (run rest c)).
Proof.
  induction fuel as [|fuel IH]; intros c Hfuel HP.
  - destruct (decide (Forall (fun pc => has_returned pc = true) (threads c)))
      as [Hall|Hsome]; [now exists []|].
    exfalso. apply Hsome. clear Hsome HP.
    unfold all_steps_left in Hfuel. induction (threads c) as [|pc l IHl]; [constructor|].
    simpl in Hfuel. constructor; [|apply IHl; lia].
    destruct pc; simpl in *; first [reflexivity|lia].
  - destruct (decide (Forall (fun pc => has_returned pc = true) (threads c)))
      as [Hall|Hsome]; [now exists []|].
    apply not_Forall_Exists in Hsome; [|intros pc; apply _].
    apply Exists_exists in Hsome as (pc & Hin & Hnot).
    apply list_elem_of_lookup in Hin as [t Hlk].
    destruct (phase_enabled e0 n c t pc HP Hlk) as [t' [c' Hstep]].
    { simpl in Hnot. now destruct (has_returned pc). }
    destruct (IH c') as [rest Hrest].
    + pose proof (thread_step_decreases t' c c' Hstep). lia.
    + eapply phase_step; eauto.
    + exists (t' :: rest). simpl. now rewrite Hstep.
Qed.

Lemma run_app (s1 s2 : list nat) (c : Config) :
  run (s1 ++ s2) c = run s2 (run s1 c).
Proof. revert c. induction s1 as [|t s1 IH]; intros c; simpl; [reflexivity|apply IH]. Qed.

(** C8: [n] threads call [_load_index] on the segment [e0] and are
    interleaved by an arbitrary schedule.  At every moment, a thread that has
    returned holds the status that one call made alone returns, and the
    segment and the world are then exactly what that one call leaves: the
    index is complete and nothing was done twice.  All the requests the
    threads made together are among those of that one call, which opens the
    file at most once and reads at most one page; a further call changes
    nothing, and on a fresh cell the one call is the read and parse of
    [load_index_fn] followed by keeping its status.  While some thread has
    not returned some thread can move, and the schedule can be continued so
    that all threads return. *)
Theorem load_index_exactly_once (e0 : Env) (n : nat) (schedule : list nat) :
  (forall t st,
     threads (run schedule (initial n e0)) !! t = Some (Returned st) ->
     st = fst (_load_index e0)
     /\ env (run schedule (initial n e0)) = snd (_load_index e0))
  /\ io_log (world (env (run schedule (initial n e0))))
     `prefix_of` io_log (world (snd (_load_index e0)))
  /\ io_log (world (snd (_load_index e0)))
     `prefix_of` io_log (world e0)
                   ++ [OpenFile (_path (this e0));
                       ReadPage (_path (this e0))
                                (short_key_index_page (_footer (this e0)))]
  /\ _load_index (snd (_load_index e0)) = (fst (_load_index e0), snd (_load_index e0))
  /\ (_has_called (_load_index_once (this e0)) = false ->
      _load_index e0
      = (fst (load_index_fn e0), publish (fst (load_index_fn e0)) (snd (load_index_fn e0))))
  /\ (forall t pc,
        threads (run schedule (initial n e0)) !! t = Some pc ->
        has_returned pc = false ->
        exists t', is_Some (thread_step t' (run schedule (initial n e0))))
  /\ exists rest,
       Forall (fun pc => has_returned pc = true)
              (threads (run (schedule ++ rest) (initial n e0))).
Proof.
  pose proof (phase_run e0 n schedule _ (phase_initial e0 n)) as HP.
  split; [intros t st; now apply (phase_returned e0 n)|].
  split; [now apply (phase_log e0 n)|].
  split; [apply load_index_log_bound|].
  split; [apply load_index_idempotent|].
  split.
  { intros Hfresh. unfold _load_index, call. rewrite Hfresh.
    now destruct (load_index_fn e0). }
  split; [intros t pc; now apply (phase_enabled e0 n)|].
  destruct (phase_all_return e0 n _ _ (le_n _) HP) as [rest Hrest].
  exists rest. now rewrite run_app.
Qed.

End ThreadConsequences.

(** ** A concrete segment *)

Section ConcreteSegment.
Import status coding segment segment_file load_index_threads sample.

Example opened_readers :
  _column_readers (this opened) = [Some (mkColumnMetaPB 1 [x01]); None]
  /\ _is_open (this opened) = true
  /\ io_log (world opened) = [OpenFile "segment"; ReadAt "segment" 5 12; ReadAt "segment" 3 2].
Proof. vm_compute. repeat split. Qed.

Lemma new_column_iterator_absent_column_witness :
  vector_at (_column_readers (this opened)) 1 = Some None
  /\ fst (new_column_iterator 1 opened)
     = inr (DefaultValueIter (mkDefaultValueColumnIterator true "0" false tt 4)).
Proof.
  assert (H1 : vector_at (_column_readers (this opened)) 1 = Some None)
    by (vm_compute; reflexivity).
  assert (H2 : column (_tablet_schema (this opened)) 1
               = Some (mkTabletColumn 3 true "0" false 4))
    by (vm_compute; reflexivity).
  split; [exact H1|].
  exact (proj1 (proj2 (proj2 (proj2
           (new_column_iterator_absent_column opened 1 _ H1 H2))))
         eq_refl (or_introl eq_refl)).
Defined.

(** A column that is absent from the footer and has neither a default value
    nor nullability. *)
Example new_column_iterator_no_default :
  fst (new_column_iterator 1
         (mkEnv (world opened)
            (mkSegment "segment" 7
               (mkTabletSchema
                  [mkTabletColumn 1 false "" false 4; mkTabletColumn 3 false "" false 4]
                  false)
               (_footer (this opened)) true (_column_id_to_footer_ordinal (this opened))
               (_column_readers (this opened)) (_load_index_once (this opened))
               None None)))
  = inl (InternalError "invalid nonexistent column without default value.").
Proof. reflexivity. Qed.

(** Without conditions the index is loaded and a [SegmentIterator] is
    returned. *)
Example new_iterator_loads :
  fst (new_iterator (mkSchema [0]) (mkStorageReadOptions None) opened)
  = inr (SegmentIterator 7 (mkSchema [0]) (Some (mkStorageReadOptions None)))
  /\ io_log (world (snd (new_iterator (mkSchema [0]) (mkStorageReadOptions None) opened)))
     = io_log (world opened) ++ [OpenFile "segment"; ReadPage "segment" (mkPagePointerPB 0 0)]
  /\ stats (world (snd (new_iterator (mkSchema [0]) (mkStorageReadOptions None) opened)))
     = mkStats 1 0.
Proof. repeat split. Qed.

(** Two threads, the second arriving while the first is at work: the file is
    opened once, one page is read, both threads return OK. *)
Example two_threads_load_index :
  threads (run [0; 1; 0; 1; 0; 0; 1; 0; 1]%nat (initial 2 opened))
  = [Returned OK; Returned OK]
  /\ io_log (world (env (run [0; 1; 0; 1; 0; 0; 1; 0; 1]%nat (initial 2 opened))))
     = io_log (world opened) ++ [OpenFile "segment"; ReadPage "segment" (mkPagePointerPB 0 0)]
  /\ threads (run [0; 1; 0; 1]%nat (initial 2 opened))
     = [AtReadPage (mkFileReader "segment" good_file); Calling].
Proof. vm_compute. repeat split. Qed.

End ConcreteSegment.

(** ** More about tablet metadata *)

Section TabletMetaMoreFacts.
Import tablet_meta tablet_meta_more.

Lemma every_rowset_beta_Forall (rowset_type : RowsetMeta -> RowsetTypePB)
    (l : list RowsetMeta) :
  every_rowset_beta rowset_type l = true
  <-> Forall (fun rs => rowset_type rs = BETA_ROWSET) l.
Proof.
  induction l as [|rs rest IH]; simpl.
  - split; [constructor|reflexivity].
  - rewrite Forall_cons. destruct (rowset_type rs); simpl.
    + split; [discriminate|]. intros [[=] _].
    + rewrite IH. tauto.
Qed.

(** X1: [all_beta] answers true exactly when every rowset of the tablet,
    active or stale, is a beta rowset; a tablet without rowsets is all beta.
    Clearing the stale rowsets leaves the answer to the active rowsets
    alone, so it can turn the answer from false to true and never from true
    to false; the state of the tablet does not enter. *)
Theorem all_beta_every_rowset (rowset_type : RowsetMeta -> RowsetTypePB) (m : TabletMeta) :
  (all_beta rowset_type m = true
   <-> forall rs, rs ∈ _rs_metas m ++ _stale_rs_metas m -> rowset_type rs = BETA_ROWSET)
  /\ (all_beta rowset_type (clear_stale_rowset m) = true
      <-> forall rs, rs ∈ _rs_metas m -> rowset_type rs = BETA_ROWSET)
  /\ (all_beta rowset_type m = true -> all_beta rowset_type (clear_stale_rowset m) = true)
  /\ all_beta rowset_type TabletMeta_default = true
  /\ forall s, all_beta rowset_type (set_tablet_state m s) = all_beta rowset_type m.
Proof.
  assert (Hiff : forall m',
            all_beta rowset_type m' = true
            <-> forall rs, rs ∈ _rs_metas m' ++ _stale_rs_metas m' ->
                           rowset_type rs = BETA_ROWSET).
  { intros m'. unfold all_beta.
    pose proof (every_rowset_beta_Forall rowset_type (_rs_metas m')) as Ha.
    pose proof (every_rowset_beta_Forall rowset_type (_stale_rs_metas m')) as Hs.
    rewrite <- Forall_forall, Forall_app.
    destruct (every_rowset_beta rowset_type (_rs_metas m')); simpl.
    - destruct (every_rowset_beta rowset_type (_stale_rs_metas m')); simpl.
      + tauto.
      + split; [discriminate|]. intros [_ H]. apply Hs in H. discriminate.
    - split; [discriminate|]. intros [H _]. apply Ha in H. discriminate. }
  split; [apply Hiff|].
  assert (Hclear : all_beta rowset_type (clear_stale_rowset m) = true
                   <-> forall rs, rs ∈ _rs_metas m -> rowset_type rs = BETA_ROWSET).
  { rewrite Hiff. simpl. now rewrite app_nil_r. }
  split; [exact Hclear|]. split; [|split].
  - intros Hall. apply Hclear. intros rs Hin. apply (proj1 (Hiff m) Hall).
    apply elem_of_app. now left.
  - reflexivity.
  - reflexivity.
Qed.

Lemma fold_add_size_sum (f : RowsetMeta -> Z) (l : list RowsetMeta) (acc : Z) :
  fold_left (fun n rs => cxx.add_size n (f rs)) l (cxx.usize acc)
  = cxx.usize (acc + fold_right (fun rs s => f rs + s) 0 l).
Proof.
  revert acc. induction l as [|rs l IH]; intros acc; simpl.
  - now rewrite Z.add_0_r.
  - rewrite add_size_usize_l, IH. f_equal. lia.
Qed.

Lemma sum_permutation (f : RowsetMeta -> Z) (l l' : list RowsetMeta) :
  l ≡ₚ l' ->
  fold_right (fun rs s => f rs + s) 0 l = fold_right (fun rs s => f rs + s) 0 l'.
Proof.
  induction 1 as [|x l l' _ IH|x y l|l l' l'' _ IH1 _ IH2]; simpl; lia.
Qed.

(** X2: the sizes and counts of a tablet do not depend on the order in which
    its rowsets are listed: two tablets whose active rowsets are the same up
    to order have the same footprint, local size, remote size, number of
    rows and version count. *)
Theorem tablet_sizes_permutation (m m' : TabletMeta) :
  _rs_metas m ≡ₚ _rs_metas m' ->
  tablet_footprint m = tablet_footprint m'
  /\ tablet_local_size m = tablet_local_size m'
  /\ tablet_remote_size m = tablet_remote_size m'
  /\ TabletMeta_num_rows m = TabletMeta_num_rows m'
  /\ version_count m = version_count m'.
Proof.
  intros Hperm.
  split; [rewrite !footprint_sum; f_equal;
          exact (sum_permutation data_disk_size _ _ Hperm)|].
  split; [rewrite !local_size_sum; f_equal;
          exact (sum_permutation (fun rs => if is_local rs then data_disk_size rs else 0)
                   _ _ Hperm)|].
  split; [rewrite !remote_size_sum; f_equal;
          exact (sum_permutation
                   (fun rs => if negb (is_local rs) then data_disk_size rs else 0)
                   _ _ Hperm)|].
  split.
  - unfold TabletMeta_num_rows.
    pose proof (fold_add_size_sum num_rows (_rs_metas m) 0) as H1.
    pose proof (fold_add_size_sum num_rows (_rs_metas m') 0) as H2.
    change (cxx.usize 0) with 0 in H1, H2. rewrite H1, H2. f_equal.
    exact (sum_permutation num_rows _ _ Hperm).
  - unfold version_count. now rewrite (Permutation_length Hperm).
Qed.

Lemma tablet_sizes_permutation_witness :
  tablet_footprint
    (mkTabletMeta 1 TABLET_RUNNING
       [mkRowsetMeta 100 4096 true; mkRowsetMeta 50 (2 ^ 64 - 1) false] [] false)
  = tablet_footprint
      (mkTabletMeta 1 TABLET_RUNNING
         [mkRowsetMeta 50 (2 ^ 64 - 1) false; mkRowsetMeta 100 4096 true] [] false).
Proof.
  apply (tablet_sizes_permutation
           (mkTabletMeta 1 TABLET_RUNNING
              [mkRowsetMeta 100 4096 true; mkRowsetMeta 50 (2 ^ 64 - 1) false] [] false)
           (mkTabletMeta 1 TABLET_RUNNING
              [mkRowsetMeta 50 (2 ^ 64 - 1) false; mkRowsetMeta 100 4096 true] [] false)).
  simpl. apply Permutation_swap.
Defined.

Lemma int16_range (x : Z) : - 2 ^ 15 <= int16 x < 2 ^ 15.
Proof.
  unfold int16. pose proof (Z.mod_pos_bound (x + 2 ^ 15) (2 ^ 16)). lia.
Qed.

(** X3: [shard_id()] returns an [int16_t] although the member and the
    argument of [set_shard_id] are [int32_t]: the getter gives back the
    shard id that was set exactly when that id fits 16 bits; any other id
    comes back changed, as the value in the 16-bit range that differs from
    it by a multiple of 2^16. *)
Theorem shard_id_round_trip (m : TabletMetaIds) (x : Z) :
  (shard_id (set_shard_id m x) = x <-> - 2 ^ 15 <= x < 2 ^ 15)
  /\ - 2 ^ 15 <= shard_id (set_shard_id m x) < 2 ^ 15
  /\ (shard_id (set_shard_id m x) - x) mod 2 ^ 16 = 0
  /\ creation_time (set_shard_id m x) = creation_time m.
Proof.
  unfold shard_id, set_shard_id. simpl.
  pose proof (int16_range x) as Hrange.
  split; [|split; [exact Hrange|split; [|reflexivity]]].
  - split.
    + intros Heq. rewrite <- Heq. exact Hrange.
    + intros Hfit. unfold int16. rewrite Z.mod_small; lia.
  - unfold int16.
    replace ((x + 2 ^ 15) mod 2 ^ 16 - 2 ^ 15 - x)
      with (- (2 ^ 16 * ((x + 2 ^ 15) / 2 ^ 16))).
    + rewrite Z.mul_comm, <- Z.mul_opp_l. apply Z.mod_mul. lia.
    + pose proof (Z.div_mod (x + 2 ^ 15) (2 ^ 16)). lia.
Qed.

(** A shard id just above the 16-bit range. *)
Example shard_id_40000 (m : TabletMetaIds) : shard_id (set_shard_id m 40000) = -25536.
Proof. reflexivity. Qed.

End TabletMetaMoreFacts.

(** ** More about the column readers *)

Section ColumnReaderMoreFacts.
Import status coding segment segment_file segment_more.
Context `{Ext : Externals}.

Lemma index_footer_columns_find (cols : list ColumnMetaPB) :
  forall (ordinal : nat) (m : gmap Z nat) (uid : Z),
    index_footer_columns ordinal cols m !! uid
    = match m !! uid with
      | Some v => Some v
      | None =>
          (fun p => (ordinal + fst p)%nat)
            <$> list_find (fun c => pb_unique_id c = uid) cols
      end.
Proof.
  induction cols as [|column_pb rest IH]; intros ordinal m uid; simpl.
  - now destruct (m !! uid).
  - rewrite IH. unfold emplace.
    destruct (decide (pb_unique_id column_pb = uid)) as [Heq|Hne].
    + subst uid. destruct (m !! pb_unique_id column_pb) eqn:Hold.
      * now rewrite Hold.
      * rewrite lookup_insert_eq. simpl. f_equal. lia.
    + assert (Hshift : (fun p : nat * ColumnMetaPB => (S ordinal + fst p)%nat)
                         <$> list_find (fun c => pb_unique_id c = uid) rest
                       = (fun p : nat * ColumnMetaPB => (ordinal + fst p)%nat)
                           <$> (prod_map S id <$> list_find (fun c => pb_unique_id c = uid) rest))
        by (destruct (list_find _ rest) as [[i x]|]; simpl; [f_equal; lia|reflexivity]).
      destruct (m !! pb_unique_id column_pb) eqn:Hold.
      * destruct (m !! uid); [reflexivity|exact Hshift].
      * rewrite lookup_insert_ne by exact Hne.
        destruct (m !! uid); [reflexivity|exact Hshift].
Qed.

(** X5: when several columns of the footer carry the same unique id, the
    index from unique ids to footer ordinals keeps the first of them: an id
    is mapped to the ordinal of the first footer column that has it, and to
    nothing when no footer column has it. *)
Theorem index_footer_columns_first (cols : list ColumnMetaPB) (id : Z) :
  index_footer_columns 0 cols ∅ !! id
  = fst <$> list_find (fun c => pb_unique_id c = id) cols
  /\ (forall i,
        index_footer_columns 0 cols ∅ !! id = Some i
        <-> exists pb,
              cols !! i = Some pb /\ pb_unique_id pb = id
              /\ forall j pb', cols !! j = Some pb' -> (j < i)%nat -> pb_unique_id pb' <> id)
  /\ (index_footer_columns 0 cols ∅ !! id = None <-> id ∉ map pb_unique_id cols).
Proof.
  assert (Hfind : index_footer_columns 0 cols ∅ !! id
                  = fst <$> list_find (fun c => pb_unique_id c = id) cols).
  { rewrite index_footer_columns_find, lookup_empty.
    destruct (list_find _ cols) as [[i x]|]; reflexivity. }
  split; [exact Hfind|]. split.
  - intros i. rewrite Hfind. split.
    + destruct (list_find _ cols) as [[i' pb]|] eqn:Hlf; [|discriminate].
      intros [= <-]. apply list_find_Some in Hlf as (Hlk & Hid & Hfirst).
      exists pb. eauto.
    + intros (pb & Hlk & Hid & Hfirst).
      assert (Hlf : list_find (fun c => pb_unique_id c = id) cols = Some (i, pb))
        by (apply list_find_Some; eauto).
      now rewrite Hlf.
  - rewrite (index_footer_columns_lookup_None cols 0 ∅ id), lookup_empty. tauto.
Qed.

(** The loop over the schema never touches the world, and it runs to its end
    exactly when every reader it has to create can be created. *)
Lemma create_readers_from_result (cols : list TabletColumn) :
  forall (ordinal : nat) (e e' : Env) (r : Status),
    ordinals_valid (this e) ->
    create_readers_from ordinal cols e = (r, e') ->
    world e' = world e
    /\ (ok r = true
        <-> forall col fo pb,
              col ∈ cols ->
              _column_id_to_footer_ordinal (this e) !! unique_id col = Some fo ->
              columns (_footer (this e)) !! fo = Some pb ->
              ok (ColumnReader_create
                    (mkColumnReaderOptions (is_in_memory (_tablet_schema (this e))))
                    pb (num_rows (_footer (this e))) (_path (this e))) = true).
Proof.
  induction cols as [|col rest IH]; intros ordinal e e' r Hvalid; simpl.
  - unfold ret. intros [= <- <-]. split; [reflexivity|]. split; [|reflexivity].
    intros _ col fo pb Hin. now apply elem_of_nil in Hin.
  - unfold bind at 1, get_this at 1.
    destruct (_column_id_to_footer_ordinal (this e) !! unique_id col) as [fo|] eqn:Hfo.
    + pose proof (Hvalid _ _ Hfo) as Hlt.
      apply lookup_lt_is_Some_2 in Hlt. destruct Hlt as [pb Hpb]. rewrite Hpb.
      unfold bind at 1, lift at 1.
      destruct (ColumnReader_create
                  (mkColumnReaderOptions (is_in_memory (_tablet_schema (this e))))
                  pb (num_rows (_footer (this e))) (_path (this e)))
        as [f|reader] eqn:Hcreate.
      * intros [= <- <-]. split; [reflexivity|]. simpl. split; [discriminate|].
        intros Hall.
        assert (Hc : ok (ColumnReader_create
                           (mkColumnReaderOptions (is_in_memory (_tablet_schema (this e))))
                           pb (num_rows (_footer (this e))) (_path (this e))) = true).
        { apply (Hall col fo pb); auto. apply elem_of_cons. now left. }
        rewrite Hcreate in Hc. discriminate.
      * unfold bind at 1, modify_this at 1. intros Hrest.
        apply IH in Hrest; [|exact Hvalid].
        simpl in Hrest. destruct Hrest as [Hw Hok].
        split; [exact Hw|]. rewrite Hok. split.
        -- intros Hall col' fo' pb' Hin Hfo' Hpb'.
           apply elem_of_cons in Hin as [->|Hin]; [|now apply (Hall col' fo' pb')].
           rewrite Hfo in Hfo'. injection Hfo' as <-.
           rewrite Hpb in Hpb'. injection Hpb' as <-. now rewrite Hcreate.
        -- intros Hall col' fo' pb' Hin. apply Hall. apply elem_of_cons. now right.
    + intros Hrest. apply IH in Hrest; [|exact Hvalid]. destruct Hrest as [Hw Hok].
      split; [exact Hw|]. rewrite Hok. split.
      * intros Hall col' fo' pb' Hin Hfo' Hpb'.
        apply elem_of_cons in Hin as [->|Hin]; [congruence|].
        now apply (Hall col' fo' pb').
      * intros Hall col' fo' pb' Hin. apply Hall. apply elem_of_cons. now right.
Qed.

(** X6: for a file that can be opened and read and whose footer length plus
    12 fits [uint32_t], [Segment::open] succeeds exactly when the file is in
    none of the five corruption cases and a reader can be created for every
    column of the schema that the footer has, from the first footer column
    with the unique id of that column.  Footer columns that the schema does
    not have play no part. *)
Theorem open_succeeds_iff (w : World) (path : string) (segment_id : Z)
    (schema : TabletSchema) (data : list byte) :
  files w !! path = Some data ->
  file_size data < cxx.SIZE_MOD ->
  (12 <= file_size data -> 12 + footer_length data < cxx.UINT32_MOD) ->
  ok (fst (open path segment_id schema w)) = true
  <-> ~ corruption_cases data
      /\ exists footer,
           ParseFromString (footer_bytes data) = Some footer
           /\ readers_creatable schema footer path.
Proof.
  intros Hfile Hsize Hlen. rewrite open_unfold. cbv zeta.
  destruct (parse_footer_decided (mkEnv w (Segment_new path segment_id schema)) data
              Hfile Hsize Hlen) as [[Hbad (m & w' & Hr)]|[Hgood (footer & Hparse & Hr)]];
    simpl this in Hr; simpl world in Hr; simpl _path in Hr; rewrite Hr.
  - simpl. split; [discriminate|tauto].
  - unfold _create_column_readers, bind, modify_this, get_this. simpl.
    destruct (create_readers_from 0 (schema_columns schema) _) as [r e2] eqn:Hloop.
    apply create_readers_from_result in Hloop as [_ Hok].
    2:{ intros k v. simpl.
        apply (index_footer_columns_bound (columns footer) 0 ∅).
        intros k' v'. rewrite lookup_empty. discriminate. }
    simpl in Hok.
    assert (Hcreatable : readers_creatable schema footer path <-> ok r = true).
    { rewrite Hok. unfold readers_creatable. split; intros H col fo pb; apply H. }
    destruct r as [f|[]]; simpl in *.
    + split; [discriminate|]. intros (_ & footer' & Hparse' & Hc).
      rewrite Hparse in Hparse'. injection Hparse' as <-. now apply Hcreatable.
    + split; [|reflexivity]. intros _. split; [exact Hgood|].
      exists footer. split; [exact Hparse|]. now apply Hcreatable.
Qed.

End ColumnReaderMoreFacts.

(** ** More about parsing the footer *)

Section ParseFooterMoreFacts.
Import status coding segment segment_file segment_more.
Context `{Ext : Externals}.

(** X7: for a file whose footer length plus 12 fits [uint32_t], valid or
    corrupt, [_parse_footer] asks the file system for nothing outside the
    file: it opens the file of the segment once and requests at most two
    reads, each of bytes that the file has. *)
Theorem parse_footer_requests_in_file (e : Env) (data : list byte) :
  files (world e) !! _path (this e) = Some data ->
  file_size data < cxx.SIZE_MOD ->
  (12 <= file_size data -> 12 + footer_length data < cxx.UINT32_MOD) ->
  exists requests,
    io_log (world (snd (_parse_footer e))) = io_log (world e) ++ requests
    /\ Forall (request_in_file (_path (this e)) data) requests
    /\ (length requests <= 3)%nat.
Proof.
  intros Hfile Hsize Hlen.
  rewrite (parse_footer_unfold e data Hfile Hsize). cbv zeta.
  destruct (Z.ltb_spec (file_size data) 12) as [Hlt|Hge].
  { exists [OpenFile (_path (this e))]. simpl.
    split; [reflexivity|]. split; [repeat constructor|lia]. }
  specialize (Hlen Hge).
  assert (Hone : exists requests,
             (io_log (world e) ++ [OpenFile (_path (this e))])
               ++ [ReadAt (_path (this e)) (file_size data - 12) 12]
             = io_log (world e) ++ requests
             /\ Forall (request_in_file (_path (this e)) data) requests
             /\ (length requests <= 3)%nat).
  { exists [OpenFile (_path (this e)); ReadAt (_path (this e)) (file_size data - 12) 12].
    split; [now rewrite <- app_assoc|]. split; [|simpl; lia].
    repeat constructor; simpl; lia. }
  destruct (magic_matches data); simpl negb; cbv iota; [|exact Hone].
  pose proof (decode_fixed32_le_range (trailer data)) as Hrange.
  fold (footer_length data) in Hrange.
  assert (Hadd : cxx.add_u32 12 (footer_length data) = 12 + footer_length data).
  { unfold cxx.add_u32, cxx.u32. apply Z.mod_small. lia. }
  rewrite Hadd.
  destruct (Z.ltb_spec (file_size data) (12 + footer_length data)) as [Hshort|Hfits];
    [exact Hone|].
  rewrite (sub_size_exact (file_size data - 12) (footer_length data)) by lia.
  assert (Htwo : forall (st : Status) (s : Segment),
             exists requests,
               io_log (world (snd (st,
                 mkEnv (log_io (ReadAt (_path (this e))
                                  (file_size data - 12 - footer_length data)
                                  (footer_length data))
                          (consume (footer_length data)
                             (log_io (ReadAt (_path (this e)) (file_size data - 12) 12)
                                (log_io (OpenFile (_path (this e))) (world e))))) s)))
               = io_log (world e) ++ requests
               /\ Forall (request_in_file (_path (this e)) data) requests
               /\ (length requests <= 3)%nat).
  { intros st s.
    exists [OpenFile (_path (this e));
            ReadAt (_path (this e)) (file_size data - 12) 12;
            ReadAt (_path (this e)) (file_size data - 12 - footer_length data)
                   (footer_length data)].
    split; [simpl; now rewrite <- !app_assoc|]. split; [|simpl; lia].
    repeat constructor; simpl; lia. }
  destruct (if in_file _ _ _ then _ else _) as [f|footer_buf]; [apply Htwo|].
  destruct (negb _); [apply Htwo|].
  destruct (ParseFromString footer_buf); apply Htwo.
Qed.

Lemma create_readers_from_world (cols : list TabletColumn) :
  forall (ordinal : nat) (e : Env),
    world (snd (create_readers_from ordinal cols e)) = world e.
Proof.
  induction cols as [|col rest IH]; intros ordinal e; simpl; [reflexivity|].
  unfold bind at 1, get_this at 1.
  destruct (_column_id_to_footer_ordinal (this e) !! unique_id col) as [fo|];
    [|apply IH].
  destruct (columns (_footer (this e)) !! fo) as [pb|]; [|reflexivity].
  unfold bind at 1, lift at 1.
  destruct (ColumnReader_create _ _ _ _) as [f|reader]; [reflexivity|].
  unfold bind at 1, modify_this at 1. now rewrite IH.
Qed.

Lemma create_column_readers_world (e : Env) :
  world (snd (_create_column_readers e)) = world e.
Proof.
  unfold _create_column_readers, bind, modify_this, get_this. simpl.
  now rewrite create_readers_from_world.
Qed.

(** The world that [_open] leaves is the one [_parse_footer] leaves. *)
Lemma open_world (e : Env) :
  world (snd (_open e)) = world (snd (_parse_footer e)).
Proof.
  unfold _open, bind.
  destruct (_parse_footer e) as [[f|[]] e1]; [reflexivity|]. simpl.
  pose proof (create_column_readers_world e1) as Hw.
  destruct (_create_column_readers e1) as [[f|[]] e2]; simpl in *; exact Hw.
Qed.

(** X8: [_open] charges the footer length to the memory tracker as soon as
    the two size checks and the magic check have passed, before the footer
    is read, and leaves it charged when the read, the checksum, the parser
    or a column reader fails afterwards; in the other cases it charges
    nothing.  The second size check is the one the code computes, with
    [12 + footer_length] in [uint32_t]. *)
Theorem open_memory_charge (e : Env) (data : list byte) :
  files (world e) !! _path (this e) = Some data ->
  file_size data < cxx.SIZE_MOD ->
  mem_consumption (world (snd (_open e)))
  = mem_consumption (world e)
    + (if (file_size data <? 12) || negb (magic_matches data)
          || (file_size data <? cxx.add_u32 12 (footer_length data))
       then 0 else footer_length data).
Proof.
  intros Hfile Hsize.
  rewrite open_world.
  rewrite (parse_footer_unfold _ data) by assumption. cbv zeta. simpl.
  destruct (file_size data <? 12); simpl; [lia|].
  destruct (magic_matches data); simpl; [|lia].
  destruct (file_size data <? cxx.add_u32 12 (footer_length data)); simpl; [lia|].
  destruct (if in_file _ _ _ then _ else _) as [f|footer_buf]; [reflexivity|].
  destruct (negb _); [reflexivity|].
  destruct (ParseFromString footer_buf); reflexivity.
Qed.

Lemma laid_out_file_split (pages footer : list byte) (len sum : Z) :
  laid_out_file pages footer len sum
  = (pages ++ footer)
      ++ (encode_fixed32_le len ++ encode_fixed32_le sum ++ k_segment_magic).
Proof. unfold laid_out_file. now rewrite <- app_assoc. Qed.

Lemma laid_out_file_length (pages footer : list byte) (len sum : Z) :
  length k_segment_magic = 4%nat ->
  length (laid_out_file pages footer len sum) = (length (pages ++ footer) + 12)%nat.
Proof.
  intros Hm. rewrite laid_out_file_split, !length_app, !length_encode_fixed32_le, Hm. lia.
Qed.

Lemma laid_out_file_trailer (pages footer : list byte) (len sum : Z) :
  length k_segment_magic = 4%nat ->
  trailer (laid_out_file pages footer len sum)
  = encode_fixed32_le len ++ encode_fixed32_le sum ++ k_segment_magic.
Proof.
  intros Hm. unfold trailer. rewrite laid_out_file_length by exact Hm.
  rewrite laid_out_file_split.
  replace (length (pages ++ footer) + 12 - 12)%nat with (length (pages ++ footer)) by lia.
  apply drop_app_length.
Qed.

Lemma laid_out_file_body (pages footer : list byte) (len sum : Z) :
  length k_segment_magic = 4%nat ->
  body (laid_out_file pages footer len sum) = pages ++ footer.
Proof.
  intros Hm. unfold body. rewrite laid_out_file_length by exact Hm.
  rewrite laid_out_file_split.
  replace (length (pages ++ footer) + 12 - 12)%nat with (length (pages ++ footer)) by lia.
  apply take_app_length.
Qed.

(** X9: a file whose trailer announces the true length of its footer and an
    arbitrary checksum is accepted by [_parse_footer] exactly when the
    CRC32C of the footer bytes equals the announced checksum and the footer
    parses.  When the two checksums differ the answer is the checksum
    Corruption whatever the parser would say of the bytes, and the segment
    is left as it was: footer bytes altered after the trailer was written
    are refused whenever the alteration changes their CRC32C. *)
Theorem parse_footer_checks_checksum (e : Env) (pages footer : list byte) (sum : Z) :
  files (world e) !! _path (this e)
  = Some (laid_out_file pages footer (Z.of_nat (length footer)) sum) ->
  length k_segment_magic = 4%nat ->
  Z.of_nat (length footer) < cxx.UINT32_MOD ->
  file_size (laid_out_file pages footer (Z.of_nat (length footer)) sum) < cxx.SIZE_MOD ->
  fst (_parse_footer e)
  = (if cxx.u32 (crc32c_Value footer) =? cxx.u32 sum
     then match ParseFromString footer with
          | Some _ => OK
          | None => inl (Corruption "Bad segment file {}: failed to parse SegmentFooterPB")
          end
     else inl (Corruption
                 "Bad segment file {}: footer checksum not match, actual={} vs expect={}"))
  /\ (ok (fst (_parse_footer e)) = true
      <-> cxx.u32 (crc32c_Value footer) = cxx.u32 sum
          /\ is_Some (ParseFromString footer))
  /\ (cxx.u32 (crc32c_Value footer) <> cxx.u32 sum ->
      this (snd (_parse_footer e)) = this e).
Proof.
  intros Hfile Hm Hlen Hsize.
  set (data := laid_out_file pages footer (Z.of_nat (length footer)) sum) in *.
  pose proof (laid_out_file_trailer pages footer (Z.of_nat (length footer)) sum Hm)
    as Htrailer.
  pose proof (laid_out_file_body pages footer (Z.of_nat (length footer)) sum Hm) as Hbody.
  pose proof (laid_out_file_length pages footer (Z.of_nat (length footer)) sum Hm)
    as Hlength.
  fold data in Htrailer, Hbody, Hlength.
  assert (Hfl : footer_length data = Z.of_nat (length footer)).
  { unfold footer_length. rewrite Htrailer, decode_encode_fixed32_le.
    unfold cxx.u32. apply Z.mod_small. lia. }
  assert (Hsum : stored_checksum data = cxx.u32 sum).
  { unfold stored_checksum. rewrite Htrailer.
    unfold encode_fixed32_le at 1. simpl drop. apply decode_encode_fixed32_le. }
  assert (Hmagic : magic_matches data = true).
  { unfold magic_matches. rewrite Htrailer. unfold encode_fixed32_le. simpl drop.
    unfold memcmp_eq. now apply bool_decide_eq_true. }
  assert (Hge : 12 + Z.of_nat (length footer) <= file_size data).
  { unfold file_size. rewrite Hlength, length_app. lia. }
  assert (Hdrop : drop (length (body data) - Z.to_nat (Z.of_nat (length footer)))
                       (body data) = footer).
  { rewrite Hbody, length_app.
    replace (length pages + length footer - Z.to_nat (Z.of_nat (length footer)))%nat
      with (length pages) by lia.
    apply drop_app_length. }
  assert (Hrun :
    _parse_footer e
    = (if cxx.u32 (crc32c_Value footer) =? cxx.u32 sum
       then match ParseFromString footer with
            | Some parsed =>
                (inr tt,
                 mkEnv (log_io (ReadAt (_path (this e))
                                  (file_size data - 12 - Z.of_nat (length footer))
                                  (Z.of_nat (length footer)))
                          (consume (Z.of_nat (length footer))
                             (log_io (ReadAt (_path (this e)) (file_size data - 12) 12)
                                (log_io (OpenFile (_path (this e))) (world e)))))
                       (set_footer parsed (this e)))
            | None =>
                (inl (Corruption "Bad segment file {}: failed to parse SegmentFooterPB"),
                 mkEnv (log_io (ReadAt (_path (this e))
                                  (file_size data - 12 - Z.of_nat (length footer))
                                  (Z.of_nat (length footer)))
                          (consume (Z.of_nat (length footer))
                             (log_io (ReadAt (_path (this e)) (file_size data - 12) 12)
                                (log_io (OpenFile (_path (this e))) (world e)))))
                       (this e))
            end
       else (inl (Corruption
                    "Bad segment file {}: footer checksum not match, actual={} vs expect={}"),
             mkEnv (log_io (ReadAt (_path (this e))
                              (file_size data - 12 - Z.of_nat (length footer))
                              (Z.of_nat (length footer)))
                      (consume (Z.of_nat (length footer))
                         (log_io (ReadAt (_path (this e)) (file_size data - 12) 12)
                            (log_io (OpenFile (_path (this e))) (world e)))))
                   (this e)))).
  { rewrite (parse_footer_unfold e data Hfile Hsize). cbv zeta.
    destruct (Z.ltb_spec (file_size data) 12) as [Hlt|_]; [lia|].
    rewrite Hmagic. simpl negb. cbv iota. rewrite Hfl.
    assert (Hadd : cxx.add_u32 12 (Z.of_nat (length footer))
                   <= 12 + Z.of_nat (length footer)).
    { unfold cxx.add_u32, cxx.u32, cxx.UINT32_MOD. apply Z.mod_le; lia. }
    destruct (Z.ltb_spec (file_size data) (cxx.add_u32 12 (Z.of_nat (length footer))))
      as [Hlt|_]; [lia|].
    rewrite (sub_size_exact (file_size data - 12) (Z.of_nat (length footer))) by lia.
    assert (Hin : in_file (mkFileReader (_path (this e)) data)
                    (file_size data - 12 - Z.of_nat (length footer))
                    (Z.of_nat (length footer)) = true).
    { unfold in_file. change (FileReader_size _) with (file_size data).
      rewrite !andb_true_iff, !Z.leb_le. lia. }
    rewrite Hin, (read_footer data (Z.of_nat (length footer))) by lia.
    rewrite !Hdrop, Hsum.
    destruct (cxx.u32 (crc32c_Value footer) =? cxx.u32 sum); simpl negb; cbv iota;
      [|reflexivity].
    destruct (ParseFromString footer); reflexivity. }
  rewrite Hrun.
  destruct (Z.eqb_spec (cxx.u32 (crc32c_Value footer)) (cxx.u32 sum)) as [Heq|Hne].
  - destruct (ParseFromString footer) as [parsed|]; simpl.
    + repeat split; eauto; tauto.
    + repeat split; try tauto; try discriminate.
      intros [_ [? [=]]].
  - simpl. repeat split; try tauto; try discriminate.
Qed.

End ParseFooterMoreFacts.

(** ** More about iterators and the index *)

Section IteratorMoreFacts.
Import status coding segment segment_file segment_more.
Context `{Ext : Externals}.

Lemma open_file_stats (path : string) (e e' : Env) (r : Result FileReader) :
  open_file path e = (r, e') -> stats (world e') = stats (world e).
Proof.
  unfold open_file, bind, modify_world, get_world. simpl.
  destruct (files (world e) !! path); intros [= <- <-]; reflexivity.
Qed.

Lemma read_at_stats (file_reader : FileReader) (offset len : Z) (e e' : Env)
    (r : Result (list byte)) :
  read_at file_reader offset len e = (r, e') -> stats (world e') = stats (world e).
Proof.
  unfold read_at, bind, modify_world, ret, lift. simpl.
  destruct (in_file file_reader offset len); intros [= <- <-]; reflexivity.
Qed.

Lemma parse_footer_stats (e : Env) :
  stats (world (snd (_parse_footer e))) = stats (world e).
Proof.
  unfold _parse_footer, bind at 1, get_this at 1, bind at 1.
  destruct (open_file (_path (this e)) e) as [[f|file_reader] e0] eqn:Hopen;
    apply open_file_stats in Hopen; [exact Hopen|].
  destruct (FileReader_size file_reader <? 12); [exact Hopen|].
  unfold bind at 1.
  destruct (read_at file_reader _ 12 e0) as [[f|fixed_buf] e1] eqn:Hread1;
    apply read_at_stats in Hread1; [simpl; congruence|].
  destruct (negb (memcmp_eq _ _ _)); [simpl; congruence|].
  destruct (FileReader_size file_reader <? _); [simpl; congruence|].
  unfold bind at 1, modify_world at 1, bind at 1.
  destruct (read_at file_reader _ _ _) as [[f|footer_buf] e2] eqn:Hread2;
    apply read_at_stats in Hread2; simpl in Hread2; [simpl; congruence|].
  destruct (negb (_ =? _)); [simpl; congruence|].
  destruct (ParseFromString footer_buf); simpl; congruence.
Qed.

Lemma open_stats (e : Env) : stats (world (snd (_open e))) = stats (world e).
Proof.
  unfold _open, bind.
  pose proof (parse_footer_stats e) as Hp.
  destruct (_parse_footer e) as [[f|[]] e1]; simpl in Hp; [exact Hp|].
  pose proof (create_column_readers_world e1) as Hc.
  destruct (_create_column_readers e1) as [[f|[]] e2]; simpl in *; congruence.
Qed.

(** [new_iterator] on an open segment, statement by statement. *)
Lemma new_iterator_open_unfold (e : Env) (schema : Schema)
    (read_options : StorageReadOptions) :
  _is_open (this e) = true ->
  new_iterator schema read_options e =
    match (match conditions read_options with
           | Some conds => prune_by_zone_map (_column_readers (this e)) conds
           | None => inr false
           end) with
    | inl f => (inl f, mkEnv (incr_total_segment_number (world e)) (this e))
    | inr true =>
        (inr (EmptySegmentIterator schema),
         mkEnv (incr_filtered_segment_number (incr_total_segment_number (world e)))
               (this e))
    | inr false =>
        (match fst (_load_index (mkEnv (incr_total_segment_number (world e)) (this e))) with
         | inr _ => inr (SegmentIterator (_segment_id (this e)) schema (Some read_options))
         | inl f => inl f
         end,
         snd (_load_index (mkEnv (incr_total_segment_number (world e)) (this e))))
    end.
Proof.
  intros Hopen.
  unfold new_iterator, bind at 1, get_this at 1. rewrite Hopen. simpl negb. cbv iota.
  unfold bind, ret, modify_world, get_this, lift. simpl.
  destruct (match conditions read_options with
            | Some conds => prune_by_zone_map (_column_readers (this e)) conds
            | None => inr false
            end) as [f|[|]]; [reflexivity|reflexivity|].
  destruct (load_index_frame (mkEnv (incr_total_segment_number (world e)) (this e)))
    as (_ & _ & Hid & _).
  destruct (_load_index _) as [[f|[]] e2]; simpl in *; [reflexivity|].
  now rewrite Hid.
Qed.

(** X10: conditions on columns that have no reader in the segment, or whose
    reader has no zone map, never filter the segment: when every condition
    of the read options is on such a column, [new_iterator] on an open
    segment goes on to load the index and to answer a [SegmentIterator],
    and the filtered count stays as it was. *)
Theorem new_iterator_unprunable_conditions (e : Env) (schema : Schema)
    (read_options : StorageReadOptions) (conds : list (Z * CondColumn)) :
  _is_open (this e) = true ->
  conditions read_options = Some conds ->
  (forall column_id cond,
     In (column_id, cond) conds ->
     vector_at (_column_readers (this e)) column_id = Some None
     \/ exists reader,
          vector_at (_column_readers (this e)) column_id = Some (Some reader)
          /\ has_zone_map reader = false) ->
  new_iterator schema read_options e
  = (match fst (_load_index (mkEnv (incr_total_segment_number (world e)) (this e))) with
     | inr _ => inr (SegmentIterator (_segment_id (this e)) schema (Some read_options))
     | inl f => inl f
     end,
     snd (_load_index (mkEnv (incr_total_segment_number (world e)) (this e))))
  /\ (forall schema', fst (new_iterator schema read_options e)
                      <> inr (EmptySegmentIterator schema'))
  /\ filtered_segment_number (stats (world (snd (new_iterator schema read_options e))))
     = filtered_segment_number (stats (world e)).
Proof.
  intros Hopen Hconds Habsent.
  assert (Hrange : conditions_in_range (_column_readers (this e)) conds).
  { intros column_id cond Hin.
    destruct (Habsent column_id cond Hin) as [H|(reader & H & _)]; rewrite H; eauto. }
  assert (Hprune : prune_by_zone_map (_column_readers (this e)) conds = inr false).
  { destruct (prune_by_zone_map_total _ _ Hrange) as [[|] Hb]; [|exact Hb].
    apply (prune_by_zone_map_true _ _ Hrange) in Hb.
    destruct Hb as (column_id & cond & reader & Hin & Hreader & Hzone & _).
    destruct (Habsent column_id cond Hin) as [H|(reader' & H & Hz)];
      rewrite H in Hreader; [discriminate|].
    injection Hreader as ->. congruence. }
  rewrite (new_iterator_open_unfold e schema read_options Hopen), Hconds, Hprune.
  split; [reflexivity|].
  destruct (load_index_frame (mkEnv (incr_total_segment_number (world e)) (this e)))
    as (Hstats & _).
  split.
  - intros schema'. simpl. destruct (fst (_load_index _)); discriminate.
  - simpl. now rewrite Hstats.
Qed.

Lemma open_sets_is_open (e e1 : Env) :
  _open e = (inr tt, e1) -> _is_open (this e1) = true.
Proof.
  unfold _open, bind.
  destruct (_parse_footer e) as [[f|[]] e0]; [discriminate|].
  destruct (_create_column_readers e0) as [[f|[]] e2]; [discriminate|].
  unfold modify_this. now intros [= <-].
Qed.

(** On a segment that is not open [new_iterator] opens it first and, if that
    succeeds, goes on as on the opened segment. *)
Lemma new_iterator_lazy_open (e : Env) (schema : Schema)
    (read_options : StorageReadOptions) :
  _is_open (this e) = false ->
  new_iterator schema read_options e =
    match _open e with
    | (inl f, e1) => (inl f, e1)
    | (inr _, e1) => new_iterator schema read_options e1
    end.
Proof.
  intros Hclosed.
  unfold new_iterator at 1, bind at 1, get_this at 1. rewrite Hclosed. simpl negb.
  cbv iota. unfold bind at 1.
  destruct (_open e) as [[f|[]] e1] eqn:Hopen; [reflexivity|].
  apply open_sets_is_open in Hopen.
  rewrite (new_iterator_open_unfold e1 schema read_options Hopen).
  unfold bind, ret, modify_world, get_this, lift. simpl.
  destruct (match conditions read_options with
            | Some conds => prune_by_zone_map (_column_readers (this e1)) conds
            | None => inr false
            end) as [f|[|]]; [reflexivity|reflexivity|].
  destruct (load_index_frame (mkEnv (incr_total_segment_number (world e1)) (this e1)))
    as (_ & _ & Hid & _).
  destruct (_load_index _) as [[f|[]] e2]; simpl in *; [reflexivity|].
  now rewrite Hid.
Qed.

Lemma new_iterator_open_stats (e : Env) (schema : Schema)
    (read_options : StorageReadOptions) :
  _is_open (this e) = true ->
  total_segment_number (stats (world (snd (new_iterator schema read_options e))))
  = total_segment_number (stats (world e)) + 1
  /\ (filtered_segment_number (stats (world (snd (new_iterator schema read_options e))))
      = filtered_segment_number (stats (world e))
      \/ (filtered_segment_number (stats (world (snd (new_iterator schema read_options e))))
          = filtered_segment_number (stats (world e)) + 1
          /\ fst (new_iterator schema read_options e) = inr (EmptySegmentIterator schema))).
Proof.
  intros Hopen. rewrite (new_iterator_open_unfold e schema read_options Hopen).
  destruct (match conditions read_options with
            | Some conds => prune_by_zone_map (_column_readers (this e)) conds
            | None => inr false
            end) as [f|[|]]; simpl.
  - split; [reflexivity|now left].
  - split; [reflexivity|]. right. split; reflexivity.
  - destruct (load_index_frame (mkEnv (incr_total_segment_number (world e)) (this e)))
      as (Hstats & _).
    rewrite Hstats. simpl. split; [reflexivity|now left].
Qed.

(** X11: [new_iterator] counts the segment in [total_segment_number] exactly
    when the segment is open or can be opened: a segment whose opening fails
    is reported with the failure of the opening and leaves the statistics
    untouched, while a pruned segment, an iterated one and one whose index
    fails to load are each counted once.  The filtered count grows, by one,
    only together with an [EmptySegmentIterator]. *)
Theorem new_iterator_counts_segment (e : Env) (schema : Schema)
    (read_options : StorageReadOptions) :
  total_segment_number (stats (world (snd (new_iterator schema read_options e))))
  = total_segment_number (stats (world e))
    + (if _is_open (this e) || ok (fst (_open e)) then 1 else 0)
  /\ (filtered_segment_number (stats (world (snd (new_iterator schema read_options e))))
      = filtered_segment_number (stats (world e))
      \/ (filtered_segment_number (stats (world (snd (new_iterator schema read_options e))))
          = filtered_segment_number (stats (world e)) + 1
          /\ fst (new_iterator schema read_options e) = inr (EmptySegmentIterator schema)))
  /\ (forall f, _is_open (this e) = false -> fst (_open e) = inl f ->
                fst (new_iterator schema read_options e) = inl f
                /\ stats (world (snd (new_iterator schema read_options e)))
                   = stats (world e)).
Proof.
  destruct (_is_open (this e)) eqn:Hopen.
  - destruct (new_iterator_open_stats e schema read_options Hopen) as [Ht Hf].
    simpl orb. cbv iota. split; [exact Ht|]. split; [exact Hf|]. intros f [=].
  - rewrite (new_iterator_lazy_open e schema read_options Hopen).
    pose proof (open_stats e) as Hs.
    destruct (_open e) as [[f|[]] e1] eqn:Hrun; simpl in Hs; simpl orb; cbv iota.
    + simpl. rewrite Hs. split; [lia|]. split; [now left|].
      intros f' _ [= <-]. split; reflexivity.
    + apply open_sets_is_open in Hrun.
      destruct (new_iterator_open_stats e1 schema read_options Hrun) as [Ht Hf].
      rewrite Hs in Ht, Hf. split; [exact Ht|]. split; [exact Hf|]. intros f _ [=].
Qed.

(** The status of the first [_load_index] is kept: a later call, in whatever
    state the file system then is, returns that status and changes
    nothing. *)
Lemma load_index_result_kept (e : Env) (w' : World) :
  _load_index (mkEnv w' (this (snd (_load_index e))))
  = (fst (_load_index e), mkEnv w' (this (snd (_load_index e))))
  /\ _has_called (_load_index_once (this (snd (_load_index e)))) = true
  /\ _status (_load_index_once (this (snd (_load_index e)))) = fst (_load_index e).
Proof.
  assert (H : _has_called (_load_index_once (this (snd (_load_index e)))) = true
              /\ _status (_load_index_once (this (snd (_load_index e))))
                 = fst (_load_index e)).
  { unfold _load_index, call.
    destruct (_has_called (_load_index_once (this e))) eqn:Hcalled; simpl.
    - split; [exact Hcalled|reflexivity].
    - destruct (load_index_fn e) as [st e1]. simpl. split; reflexivity. }
  destruct H as [Hc Hs]. split; [|split; assumption].
  unfold _load_index at 1, call. simpl. rewrite Hc, Hs. reflexivity.
Qed.

(** X12: the function that [_load_index] runs once, on a file that is there,
    opens the file and asks for the short key index page, and for nothing
    else.  When the page cannot be read it fails with the failure of the
    read and leaves the segment and the memory tracker as they were.  When
    the page is read it stores the page handle, charges the size of the page
    body to the memory tracker and installs a decoder before it parses: when
    the parse then fails, all of this stays, and the decoder pointer is set
    although it holds no index. *)
Theorem load_index_fn_page_read (e : Env) (data : list byte) :
  files (world e) !! _path (this e) = Some data ->
  io_log (world (snd (load_index_fn e)))
  = io_log (world e)
      ++ [OpenFile (_path (this e));
          ReadPage (_path (this e)) (short_key_index_page (_footer (this e)))]
  /\ match read_and_decompress_page data (short_key_index_page (_footer (this e))) with
     | inl f =>
         fst (load_index_fn e) = inl f
         /\ this (snd (load_index_fn e)) = this e
         /\ mem_consumption (world (snd (load_index_fn e))) = mem_consumption (world e)
     | inr (handle, page_body, footer) =>
         fst (load_index_fn e)
         = status_of (ShortKeyIndexDecoder_parse page_body (short_key_page_footer footer))
         /\ _sk_index_handle (this (snd (load_index_fn e))) = Some handle
         /\ _sk_index_decoder (this (snd (load_index_fn e)))
            = Some (match ShortKeyIndexDecoder_parse page_body
                            (short_key_page_footer footer) with
                    | inr index => Some index
                    | inl _ => None
                    end)
         /\ mem_consumption (world (snd (load_index_fn e)))
            = mem_consumption (world e) + Z.of_nat (length page_body)
     end.
Proof.
  intros Hfile.
  unfold load_index_fn, bind, get_this, open_file, bind, modify_world, get_world,
    read_page, bind, modify_world, lift, modify_this, ret.
  simpl. rewrite Hfile. simpl.
  destruct (read_and_decompress_page data (short_key_index_page (_footer (this e))))
    as [f|[[handle page_body] footer]]; simpl.
  - rewrite <- app_assoc. repeat split; now destruct e.
  - destruct (ShortKeyIndexDecoder_parse page_body (short_key_page_footer footer))
      as [f|index]; simpl; rewrite <- app_assoc; repeat split.
Qed.

End IteratorMoreFacts.

(** ** new_iterator, from the lazy opening to the iterator *)

Section NewIteratorFacts.
Import status coding segment segment_file segment_more.
Context `{Ext : Externals}.




End NewIteratorFacts.

(** ** More concrete runs *)

Section ConcreteMore.
Import status coding segment segment_file segment_more load_index_threads sample sample_more.

#[local] Ltac compute_fact :=
  vm_compute;
  first [ reflexivity | discriminate | (intro; discriminate) ].

Lemma open_reader_table_witness :
  _column_readers (this opened) !! 1%nat = Some None
  <-> 3 ∉ map pb_unique_id (columns (_footer (this opened))).
Proof.
  assert (H1 : open "segment" 7 two_columns (one_file "segment" good_file)
               = (inr (this opened), world opened)) by reflexivity.
  exact (proj2 (proj2 (proj2 (open_reader_table _ _ _ _ _ _ H1)))
           1%nat (mkTabletColumn 3 true "0" false 4) eq_refl).
Defined.

Lemma open_succeeds_iff_witness :
  ok (fst (open "segment" 7 two_columns (one_file "segment" good_file))) = true
  <-> ~ corruption_cases good_file
      /\ exists footer,
           ParseFromString (footer_bytes good_file) = Some footer
           /\ readers_creatable two_columns footer "segment".
Proof.
  assert (H1 : files (one_file "segment" good_file) !! "segment"%string = Some good_file)
    by (apply lookup_singleton_eq).
  assert (H2 : file_size good_file < cxx.SIZE_MOD) by compute_fact.
  assert (H3 : 12 <= file_size good_file -> 12 + footer_length good_file < cxx.UINT32_MOD)
    by (intros _; compute_fact).
  exact (open_succeeds_iff (one_file "segment" good_file) "segment" 7 two_columns
           good_file H1 H2 H3).
Defined.

(** A corrupt file: its trailer announces a footer it does not have. *)
Lemma parse_footer_requests_in_file_witness :
  exists requests,
    io_log (world (snd (_parse_footer
                          (mkEnv (one_file "segment" short_file)
                                 (Segment_new "segment" 7 two_columns)))))
    = [] ++ requests
    /\ Forall (request_in_file "segment" short_file) requests
    /\ (length requests <= 3)%nat.
Proof.
  assert (H1 : files (world (mkEnv (one_file "segment" short_file)
                                   (Segment_new "segment" 7 two_columns)))
                 !! _path (this (mkEnv (one_file "segment" short_file)
                                       (Segment_new "segment" 7 two_columns)))
               = Some short_file)
    by (apply lookup_singleton_eq).
  assert (H2 : file_size short_file < cxx.SIZE_MOD) by compute_fact.
  assert (H3 : 12 <= file_size short_file -> 12 + footer_length short_file < cxx.UINT32_MOD)
    by (intros _; compute_fact).
  exact (parse_footer_requests_in_file _ short_file H1 H2 H3).
Defined.

(** The tampered file fails the checksum after its two bytes of footer were
    charged. *)
Lemma open_memory_charge_witness :
  is_corruption (fst (_open (mkEnv (one_file "segment" tampered_file)
                                   (Segment_new "segment" 7 two_columns))))
  = true
  /\ mem_consumption (world (snd (_open (mkEnv (one_file "segment" tampered_file)
                                               (Segment_new "segment" 7 two_columns)))))
     = 2.
Proof.
  assert (H1 : files (world (mkEnv (one_file "segment" tampered_file)
                                   (Segment_new "segment" 7 two_columns)))
                 !! _path (this (mkEnv (one_file "segment" tampered_file)
                                       (Segment_new "segment" 7 two_columns)))
               = Some tampered_file)
    by (apply lookup_singleton_eq).
  assert (H2 : file_size tampered_file < cxx.SIZE_MOD) by compute_fact.
  split; [compute_fact|].
  exact (open_memory_charge _ tampered_file H1 H2).
Defined.

Lemma parse_footer_checks_checksum_witness :
  cxx.u32 (crc32c [x01; x03]) <> cxx.u32 (crc32c [x01; x02])
  /\ fst (_parse_footer (mkEnv (one_file "segment" tampered_file)
                               (Segment_new "segment" 7 two_columns)))
     = inl (Corruption
              "Bad segment file {}: footer checksum not match, actual={} vs expect={}").
Proof.
  assert (H1 : files (world (mkEnv (one_file "segment" tampered_file)
                                   (Segment_new "segment" 7 two_columns)))
                 !! _path (this (mkEnv (one_file "segment" tampered_file)
                                       (Segment_new "segment" 7 two_columns)))
               = Some (laid_out_file [x00; x00; x00] [x01; x03]
                         (Z.of_nat (length [x01; x03])) (crc32c [x01; x02])))
    by (apply lookup_singleton_eq).
  assert (H2 : length k_segment_magic = 4%nat) by reflexivity.
  assert (H3 : Z.of_nat (length [x01; x03]) < cxx.UINT32_MOD) by compute_fact.
  assert (H4 : file_size (laid_out_file [x00; x00; x00] [x01; x03]
                            (Z.of_nat (length [x01; x03])) (crc32c [x01; x02]))
               < cxx.SIZE_MOD) by compute_fact.
  split; [compute_fact|].
  exact (proj1 (parse_footer_checks_checksum _ [x00; x00; x00] [x01; x03]
                  (crc32c [x01; x02]) H1 H2 H3 H4)).
Defined.

(** A condition that nothing matches, on the column that the footer does not
    have. *)
Lemma new_iterator_unprunable_conditions_witness :
  vector_at (_column_readers (this opened)) 1 = Some None
  /\ forall schema',
       fst (new_iterator (mkSchema [1]) (mkStorageReadOptions (Some [(1, false)])) opened)
       <> inr (EmptySegmentIterator schema').
Proof.
  assert (H1 : _is_open (this opened) = true) by (vm_compute; reflexivity).
  assert (H2 : vector_at (_column_readers (this opened)) 1 = Some None)
    by (vm_compute; reflexivity).
  assert (H3 : forall column_id cond,
             In (column_id, cond) [(1, false)] ->
             vector_at (_column_readers (this opened)) column_id = Some None
             \/ exists reader,
                  vector_at (_column_readers (this opened)) column_id = Some (Some reader)
                  /\ has_zone_map reader = false).
  { intros column_id cond [[= <- <-]|[]]. now left. }
  split; [exact H2|].
  exact (proj1 (proj2 (new_iterator_unprunable_conditions opened (mkSchema [1])
                         (mkStorageReadOptions (Some [(1, false)])) [(1, false)]
                         H1 eq_refl H3))).
Defined.



(** C3, as stated, fails: the second column of the schema is absent from the
    footer and has a declared default value, and [new_column_iterator]
    answers an InternalError all the same, the one with which the
    initialisation of the default-value iterator failed. *)
Lemma new_column_iterator_init_failure :
  vector_at (_column_readers (this (opened_with (Ext := externals_failing_init)))) 1
  = Some None
  /\ column (_tablet_schema (this (opened_with (Ext := externals_failing_init)))) 1
     = Some (mkTabletColumn 3 true "0" false 4)
  /\ has_default_value (mkTabletColumn 3 true "0" false 4) = true
  /\ fst (new_column_iterator 1 (opened_with (Ext := externals_failing_init)))
     = inl (InternalError "get value of type from default value failed.")
  /\ is_internal_error
       (fst (new_column_iterator 1 (opened_with (Ext := externals_failing_init))))
     = true.
Proof. repeat split. Qed.

(** The page is read and the index does not parse. *)
Lemma load_index_fn_page_read_witness :
  fst (load_index_fn (fresh (Ext := externals_unparsable_index)))
  = inl (Corruption "bad short key index")
  /\ _sk_index_decoder
       (this (snd (load_index_fn (fresh (Ext := externals_unparsable_index)))))
     = Some None
  /\ mem_consumption
       (world (snd (load_index_fn (fresh (Ext := externals_unparsable_index)))))
     = 0.
Proof.
  pose proof (proj2 (load_index_fn_page_read (Ext := externals_unparsable_index)
                       fresh good_file (lookup_singleton_eq _ _)))
    as (Hst & _ & Hdecoder & Hmem).
  split; [exact Hst|]. split; [exact Hdecoder|exact Hmem].
Defined.

(** A file that is missing when the index is first needed and is back
    afterwards: the failure stays. *)
Example load_index_missing_file_kept :
  fst (_load_index
         (mkEnv (mkWorld ∅ [] 0 empty_stats) (Segment_new "segment" 7 two_columns)))
  = inl (mkFailure NOT_FOUND "file not found")
  /\ fst (_load_index
            (mkEnv (one_file "segment" good_file)
               (this (snd (_load_index
                             (mkEnv (mkWorld ∅ [] 0 empty_stats)
                                    (Segment_new "segment" 7 two_columns)))))))
     = inl (mkFailure NOT_FOUND "file not found").
Proof. split; reflexivity. Qed.

End ConcreteMore.
